(** * http_lib.h: HTTP request reader, response writer and JSON serializer

    A shallow embedding of [src/FastAPI_CPP/http_lib.h] (namespace [http]).

    Conventions of the embedding.
    - [std::string] is [string]: a sequence of 8-bit characters ([ascii]).
    - [int] is [Z]; the only place where its width matters is [std::stoi],
      whose range check is written out for a 32-bit [int].
    - [std::map<std::string, V>] is an association list kept in strictly
      ascending key order by its operations (module [StdMap]); iterating the
      map is reading the list from left to right.
    - [std::istringstream] is the text that is still unread; [std::getline]
      returns the extracted line together with the text left in the stream.
    - A propagated C++ exception is [Throw], an out-of-bounds
      [std::vector::operator[]] is [Undefined]. *)

From Stdlib Require Import ZArith List Bool Ascii String Lia DecimalString.
From Stdlib Require Import Sorting.Sorted Sorting.Permutation RelationClasses.
From Stdlib Require Import Structures.OrdersEx.
From Stdlib Require Import Floats.SpecFloat.
From Stdlib Require DecimalPos DecimalZ.
Import ListNotations.
#[local] Set Warnings "-register-all".
Open Scope Z_scope.
Open Scope list_scope.
Open Scope string_scope.

(** ** Characters and small string helpers *)

Definition DQUOTE : ascii := "034"%char.
Definition BSLASH : ascii := "092"%char.
Definition BS : ascii := "008"%char.
Definition TAB : ascii := "009"%char.
Definition LF : ascii := "010"%char.
Definition VT : ascii := "011"%char.
Definition FF : ascii := "012"%char.
Definition CR : ascii := "013"%char.
Definition SPACE : ascii := "032"%char.

Definition str1 (c : ascii) : string := String c EmptyString.

(** The two-character C++ literals ["\\x"]: a backslash followed by [c]. *)
Definition esc (c : ascii) : string := String BSLASH (str1 c).

Definition CRLF : string := String CR (str1 LF).

(** [(int)c] for a [char] [c]; [char] is signed on the usual targets.  With an
    unsigned [char] bytes from 0x80 on would be 128..255 instead: the code
    below only tests the result against 0..0x1f, where both agree. *)
Definition char_to_int (c : ascii) : Z :=
  let n := Z.of_N (N_of_ascii c) in
  if (n <? 128)%Z then n else n - 256.

(** [std::string(n, c)] *)
Fixpoint string_fill (n : nat) (c : ascii) : string :=
  match n with
  | O => EmptyString
  | S n' => String c (string_fill n' c)
  end.

(** [std::to_string(int)]: decimal digits, a leading [-] when negative. *)
Definition to_string (n : Z) : string := NilZero.string_of_int (Z.to_int n).

(** [s.substr(pos)] for [pos <= s.size()] and [s.substr(0, n)]. *)
Fixpoint drop (pos : nat) (s : string) : string :=
  match pos, s with
  | O, _ => s
  | S p, EmptyString => EmptyString
  | S p, String _ s' => drop p s'
  end.

Fixpoint take (n : nat) (s : string) : string :=
  match n, s with
  | O, _ => EmptyString
  | S p, EmptyString => EmptyString
  | S p, String c s' => String c (take p s')
  end.

(** [std::string(s.rbegin(), s.rend())], used to model reverse iterators. *)
Fixpoint rev_string (s : string) (acc : string) : string :=
  match s with
  | EmptyString => acc
  | String c s' => rev_string s' (String c acc)
  end.

(** ** Outcomes of a call: a value, a propagated exception, or undefined
    behaviour *)

Inductive exception : Type :=
| std_out_of_range
| std_invalid_argument.

Inductive outcome (A : Type) : Type :=
| Return (a : A)
| Throw (e : exception)
| Undefined.

Arguments Return {A} a.
Arguments Throw {A} e.
Arguments Undefined {A}.

Definition bind {A B : Type} (x : outcome A) (k : A -> outcome B) : outcome B :=
  match x with
  | Return a => k a
  | Throw e => Throw e
  | Undefined => Undefined
  end.

Notation "'let*' x ':=' e 'in' k" := (bind e (fun x => k))
  (at level 10, x name, e at level 100, k at level 200).

(** A scalar object that was declared without an initializer holds an
    indeterminate value until it is assigned. *)
Inductive slot (A : Type) : Type :=
| Indeterminate
| Value (a : A).

Arguments Indeterminate {A}.
Arguments Value {A} a.

(** ** [std::map<std::string, V>] *)

Module StdMap.

Definition t (V : Type) : Type := list (string * V).

Definition empty {V : Type} : t V := [].

(** [m.insert({k, v})]: a key that is already present keeps its value. *)
Fixpoint insert {V : Type} (k : string) (v : V) (m : t V) : t V :=
  match m with
  | [] => [(k, v)]
  | (k', v') :: m' =>
      match String.compare k k' with
      | Lt => (k, v) :: m
      | Eq => m
      | Gt => (k', v') :: insert k v m'
      end
  end.

(** [m[k] = v]: the value of a key that is already present is replaced. *)
Fixpoint assign {V : Type} (k : string) (v : V) (m : t V) : t V :=
  match m with
  | [] => [(k, v)]
  | (k', v') :: m' =>
      match String.compare k k' with
      | Lt => (k, v) :: m
      | Eq => (k, v) :: m'
      | Gt => (k', v') :: assign k v m'
      end
  end.

(** [std::map(first, last)]: the elements of the range are inserted one
    after the other. *)
Definition of_range {V : Type} (init : list (string * V)) : t V :=
  fold_left (fun m kv => insert (fst kv) (snd kv) m) init empty.

Fixpoint find {V : Type} (k : string) (m : t V) : option V :=
  match m with
  | [] => None
  | (k', v') :: m' => if String.eqb k k' then Some v' else find k m'
  end.

Definition keys {V : Type} (m : t V) : list string := map fst m.

(** The ordering of [std::less<std::string>]: bytewise lexicographic. *)
Definition key_lt (a b : string) : Prop := String.compare a b = Lt.

(** The representation invariant: keys strictly ascending. *)
Definition ok {V : Type} (m : t V) : Prop := StronglySorted key_lt (keys m).

End StdMap.

(** ** class JSON *)

Definition double : Type := spec_float.

Inductive JSON : Type :=
| JNull
| JBool (value : bool)
| JInt (value : Z)
| JDouble (value : double)
| JString (value : string)
| JArray (value : list JSON)
| JObject (value : StdMap.t JSON).

(** [JSON::escape_string], the body of the [switch] for one character. *)
Definition escape_char (c : ascii) : string :=
  if Ascii.eqb c DQUOTE then esc DQUOTE
  else if Ascii.eqb c BSLASH then esc BSLASH
  else if Ascii.eqb c BS then esc "b"
  else if Ascii.eqb c FF then esc "f"
  else if Ascii.eqb c LF then esc "n"
  else if Ascii.eqb c CR then esc "r"
  else if Ascii.eqb c TAB then esc "t"
  else if ((0 <=? char_to_int c) && (char_to_int c <=? 31))%Z then
    esc "u" ++ string_fill (4 - String.length (to_string (char_to_int c))) "0"
            ++ to_string (char_to_int c)
  else str1 c.

(** The loop [for (char c : s)] with its accumulator [result]. *)
Fixpoint escape_loop (s : string) (result : string) : string :=
  match s with
  | EmptyString => result
  | String c s' => escape_loop s' (result ++ escape_char c)
  end.

Definition escape_string (s : string) : string := escape_loop s "".

(** The two loops of [JSON::stringify], over the elements of an [Array] and
    over the entries of an [Object], with their accumulator [result]. *)
Section Loops.

Context {A : Type}.
Variable stringify : A -> string.

Fixpoint array_loop (rest : list A) (i : nat) (result : string) : string :=
  match rest with
  | [] => result
  | x :: rest' =>
      let result := if (0 <? i)%nat then result ++ "," else result in
      array_loop rest' (S i) (result ++ stringify x)
  end.

Fixpoint object_loop (rest : StdMap.t A) (first : bool) (result : string)
    : string :=
  match rest with
  | [] => result
  | (key, value) :: rest' =>
      let result := if negb first then result ++ "," else result in
      object_loop rest' false
        (result ++ (str1 DQUOTE ++ escape_string key ++ String DQUOTE ":"
                      ++ stringify value))
  end.

End Loops.

Section Stringify.

(** [std::to_string(double)] is taken as given. *)
Variable double_to_string : double -> string.

Fixpoint stringify (j : JSON) : string :=
  match j with
  | JNull => "null"
  | JBool arg => if arg then "true" else "false"
  | JInt arg => to_string arg
  | JDouble arg => double_to_string arg
  | JString arg => str1 DQUOTE ++ escape_string arg ++ str1 DQUOTE
  | JArray arg => array_loop stringify arg O "[" ++ "]"
  | JObject arg => object_loop stringify arg true "{" ++ "}"
  end.

End Stringify.

(** [JSON::object(init)] and [JSON::array(init)] *)
Definition object (init : list (string * JSON)) : JSON :=
  JObject (StdMap.of_range init).

Definition array (init : list JSON) : JSON := JArray init.

(** ** HTTP primitive types *)

Inductive Method : Type :=
| GET
| HEAD
| POST
| PUT
| PATCH
| DELETE
| CONNECT
| OPTIONS
| TRACE
| UNKNOWN.

(** [enum class HttpStatus] has underlying type [int]; every [int] is a value
    of the type (through [static_cast<HttpStatus>]), the enumerators name
    thirteen of them. *)
Module HttpStatus.
Definition t : Type := Z.
Definition OK : t := 200.
Definition CREATED : t := 201.
Definition ACCEPTED : t := 202.
Definition NO_CONTENT : t := 204.
Definition BAD_REQUEST : t := 400.
Definition UNAUTHORIZED : t := 401.
Definition FORBIDDEN : t := 403.
Definition NOT_FOUND : t := 404.
Definition METHOD_NOT_ALLOWED : t := 405.
Definition INTERNAL_SERVER_ERROR : t := 500.
Definition NOT_IMPLEMENTED : t := 501.
Definition BAD_GATEWAY : t := 502.
Definition SERVICE_UNAVAILABLE : t := 503.
End HttpStatus.

Record Version : Type := mkVersion { major : Z; minor : Z }.

Module Request.

Record t : Type := mk {
  method : slot Method;
  uri : string;
  version : slot Version;
  headers : StdMap.t string;
  body : string
}.

(** [Request request;] default-initializes the aggregate: the two class
    members are empty, the enumeration and the two [int]s of [version] are
    not initialized. *)
Definition declared : t :=
  mk Indeterminate "" Indeterminate StdMap.empty "".

Definition set_method (m : Method) (r : t) : t :=
  mk (Value m) (uri r) (version r) (headers r) (body r).
Definition set_uri (u : string) (r : t) : t :=
  mk (method r) u (version r) (headers r) (body r).
Definition set_version (v : Version) (r : t) : t :=
  mk (method r) (uri r) (Value v) (headers r) (body r).
Definition set_headers (h : StdMap.t string) (r : t) : t :=
  mk (method r) (uri r) (version r) h (body r).
Definition set_body (b : string) (r : t) : t :=
  mk (method r) (uri r) (version r) (headers r) b.

End Request.

Module Response.

Record t : Type := mk {
  version : Version;
  status : HttpStatus.t;
  headers : StdMap.t string;
  body : string
}.

Definition status_message (r : t) : string :=
  let s := status r in
  if (s =? HttpStatus.OK)%Z then "OK"
  else if (s =? HttpStatus.CREATED)%Z then "Created"
  else if (s =? HttpStatus.ACCEPTED)%Z then "Accepted"
  else if (s =? HttpStatus.NO_CONTENT)%Z then "No Content"
  else if (s =? HttpStatus.BAD_REQUEST)%Z then "Bad Request"
  else if (s =? HttpStatus.UNAUTHORIZED)%Z then "Unauthorized"
  else if (s =? HttpStatus.FORBIDDEN)%Z then "Forbidden"
  else if (s =? HttpStatus.NOT_FOUND)%Z then "Not Found"
  else if (s =? HttpStatus.METHOD_NOT_ALLOWED)%Z then "Method Not Allowed"
  else if (s =? HttpStatus.INTERNAL_SERVER_ERROR)%Z then "Internal Server Error"
  else if (s =? HttpStatus.NOT_IMPLEMENTED)%Z then "Not Implemented"
  else if (s =? HttpStatus.BAD_GATEWAY)%Z then "Bad Gateway"
  else if (s =? HttpStatus.SERVICE_UNAVAILABLE)%Z then "Service Unavailable"
  else "Unknown Status".

End Response.

(** ** Helpers of the parser *)

(** [::isspace] in the "C" locale.  (For a byte from 0x80 on the argument is
    negative where [char] is signed; the C library answers false.) *)
Definition isspace (c : ascii) : bool :=
  let n := N_of_ascii c in
  ((9 <=? n) && (n <=? 13) || (n =? 32))%N.

(** [std::find_if_not(first, last, ::isspace) - first] *)
Fixpoint find_if_not_space (s : string) : nat :=
  match s with
  | EmptyString => O
  | String c s' => if isspace c then S (find_if_not_space s') else O
  end.

Definition trim (str : string) : string :=
  let start := find_if_not_space str in
  let end_ := (String.length str - find_if_not_space (rev_string str ""))%nat in
  if (start <? end_)%nat then take (end_ - start) (drop start str) else "".

(** One [std::getline(stream, line, delim)] on a stream that still holds
    [stream]: the characters before the first [delim], and what is left after
    the delimiter was discarded. *)
Fixpoint read_until (delim : ascii) (stream : string) : string * string :=
  match stream with
  | EmptyString => ("", "")
  | String c stream' =>
      if Ascii.eqb c delim then ("", stream')
      else let (line, rest) := read_until delim stream' in (String c line, rest)
  end.

(** The call fails (the stream converts to [false]) exactly when nothing is
    left to read. *)
Definition getline (stream : string) (delim : ascii) : option (string * string) :=
  match stream with
  | EmptyString => None
  | _ => Some (read_until delim stream)
  end.

(** The loop of [split]; every successful [getline] consumes at least one
    character, so [fuel] above the length of the stream is never used up. *)
Fixpoint split_loop (fuel : nat) (tokenStream : string) (delim : ascii)
    (tokens : list string) : list string :=
  match fuel with
  | O => tokens
  | S fuel' =>
      match getline tokenStream delim with
      | None => tokens
      | Some (token, rest) => split_loop fuel' rest delim (tokens ++ [token])
      end
  end.

Definition split (str : string) (delim : ascii) : list string :=
  split_loop (S (String.length str)) str delim [].

(** [v[i]] on a [std::vector]: no bounds check. *)
Definition index {A : Type} (v : list A) (i : nat) : outcome A :=
  match nth_error v i with
  | Some x => Return x
  | None => Undefined
  end.

(** [s.substr(pos)] throws [std::out_of_range] when [pos > s.size()]. *)
Definition substr (s : string) (pos : nat) : outcome string :=
  if (pos <=? String.length s)%nat then Return (drop pos s)
  else Throw std_out_of_range.

(** [s.find(c)]: [None] is [std::string::npos]. *)
Fixpoint find_char (c : ascii) (s : string) : option nat :=
  match s with
  | EmptyString => None
  | String c' s' =>
      if Ascii.eqb c' c then Some O
      else match find_char c s' with
           | Some n => Some (S n)
           | None => None
           end
  end.

(** [std::stoi(str)]: skip leading white space, read an optional sign and the
    longest run of decimal digits; what follows the digits is ignored. *)
Definition isdigit (c : ascii) : bool :=
  let n := N_of_ascii c in ((48 <=? n) && (n <=? 57))%N.

Definition digit_value (c : ascii) : Z := Z.of_N (N_of_ascii c) - 48.

Fixpoint skip_space (s : string) : string :=
  match s with
  | EmptyString => EmptyString
  | String c s' => if isspace c then skip_space s' else s
  end.

(** The digits at the front of [s], read after [acc]; [seen] tells whether a
    digit was read already. *)
Fixpoint read_digits (s : string) (acc : Z) (seen : bool) : option Z :=
  match s with
  | EmptyString => if seen then Some acc else None
  | String c s' =>
      if isdigit c then read_digits s' (10 * acc + digit_value c) true
      else if seen then Some acc else None
  end.

Definition INT_MIN : Z := - 2 ^ 31.
Definition INT_MAX : Z := 2 ^ 31 - 1.

Definition stoi (str : string) : outcome Z :=
  let s := skip_space str in
  let '(negative, s) :=
    match s with
    | String "-" s' => (true, s')
    | String "+" s' => (false, s')
    | _ => (false, s)
    end in
  match read_digits s 0 false with
  | None => Throw std_invalid_argument
  | Some v =>
      let v := if negative then - v else v in
      if ((INT_MIN <=? v) && (v <=? INT_MAX))%Z then Return v
      else Throw std_out_of_range
  end.

(** ** Parsers *)

Definition string_to_method (method : string) : Method :=
  if String.eqb method "GET" then GET
  else if String.eqb method "HEAD" then HEAD
  else if String.eqb method "POST" then POST
  else if String.eqb method "PUT" then PUT
  else if String.eqb method "DELETE" then DELETE
  else if String.eqb method "CONNECT" then CONNECT
  else if String.eqb method "OPTIONS" then OPTIONS
  else if String.eqb method "TRACE" then TRACE
  else if String.eqb method "PATCH" then PATCH
  else UNKNOWN.

Definition method_to_string (method : Method) : string :=
  match method with
  | GET => "GET"
  | HEAD => "HEAD"
  | POST => "POST"
  | PUT => "PUT"
  | DELETE => "DELETE"
  | CONNECT => "CONNECT"
  | OPTIONS => "OPTIONS"
  | TRACE => "TRACE"
  | PATCH => "PATCH"
  | _ => "UNKNOWN"
  end.

(** The body of the header loop for a line that is not the terminator. *)
Definition store_header (line : string) (headers : StdMap.t string)
    : StdMap.t string :=
  match find_char ":" line with
  | Some colon_pos =>
      let key := trim (take colon_pos line) in
      let value := trim (drop (colon_pos + 1) line) in
      StdMap.assign key value headers
  | None => headers
  end.

(** [while (std::getline(stream, line) && line != "\r") ...]; the result is
    the header map and what the loop left in the stream. *)
Fixpoint read_headers (fuel : nat) (stream : string) (headers : StdMap.t string)
    : StdMap.t string * string :=
  match fuel with
  | O => (headers, stream)
  | S fuel' =>
      match getline stream LF with
      | None => (headers, stream)
      | Some (line, rest) =>
          if String.eqb line (str1 CR) then (headers, rest)
          else read_headers fuel' rest (store_header line headers)
      end
  end.

(** The request line: the first [getline] and the block guarded by
    [parts.size() >= 3]. *)
Definition parse_request_line (line : string) (request : Request.t)
    : outcome Request.t :=
  let parts := split line SPACE in
  if (3 <=? List.length parts)%nat then
    let* p0 := index parts 0 in
    let request := Request.set_method (string_to_method p0) request in
    let* p1 := index parts 1 in
    let request := Request.set_uri p1 request in
    let* p2 := index parts 2 in
    let* rest := substr p2 5 in
    let version_parts := split rest "." in
    let* v0 := index version_parts 0 in
    let* major := stoi v0 in
    let* v1 := index version_parts 1 in
    let* minor := stoi v1 in
    Return (Request.set_version (mkVersion major minor) request)
  else Return request.

Definition parse_request (raw_request : string) : outcome Request.t :=
  let request := Request.declared in
  let '(line, stream) :=
    match getline raw_request LF with
    | Some (line, rest) => (line, rest)
    | None => ("", raw_request)
    end in
  let* request := parse_request_line line request in
  let '(headers, stream) :=
    read_headers (S (String.length stream)) stream (Request.headers request) in
  let request := Request.set_headers headers request in
  let body := stream in
  Return (Request.set_body body request).

(** ** Response writer *)

Definition construct_response (response : Response.t) : string :=
  let stream :=
    "HTTP/" ++ to_string (major (Response.version response)) ++ "."
      ++ to_string (minor (Response.version response)) ++ " "
      ++ to_string (Response.status response) ++ " "
      ++ Response.status_message response ++ CRLF in
  let stream :=
    fold_left
      (fun stream header => stream ++ (fst header ++ ": " ++ snd header ++ CRLF))
      (Response.headers response) stream in
  stream ++ (CRLF ++ Response.body response).

(** ** Canonical response factories *)

Section Factories.

Variable double_to_string : double -> string.

(** The default argument [{{"Content-Type", "application/json"}}]. *)
Definition default_headers : StdMap.t string :=
  StdMap.of_range [("Content-Type", "application/json")].

Definition custom_response (status : HttpStatus.t) (body : JSON)
    (headers : StdMap.t string) : Response.t :=
  Response.mk (mkVersion 1 1) status headers (stringify double_to_string body).

Definition HTTP_200_OK := custom_response HttpStatus.OK.
Definition HTTP_201_CREATED := custom_response HttpStatus.CREATED.
Definition HTTP_400_BAD_REQUEST := custom_response HttpStatus.BAD_REQUEST.
Definition HTTP_404_NOT_FOUND := custom_response HttpStatus.NOT_FOUND.
Definition HTTP_500_INTERNAL_SERVER_ERROR :=
  custom_response HttpStatus.INTERNAL_SERVER_ERROR.

End Factories.

(** * Specification-side definitions

    What the specification says in its own words, to be compared with the
    definitions above. *)

(** The four decimal digits of [n], most significant first. *)
Definition decimal_digit (d : N) : ascii := ascii_of_N (48 + d).

Definition pad4_decimal (n : N) : string :=
  String (decimal_digit ((n / 1000) mod 10))
    (String (decimal_digit ((n / 100) mod 10))
       (String (decimal_digit ((n / 10) mod 10))
          (String (decimal_digit (n mod 10)) EmptyString))).

(** The escape of one byte of a JSON string, by its unsigned value. *)
Definition spec_escape_byte (c : ascii) : string :=
  match N_of_ascii c with
  | 34%N => esc DQUOTE
  | 92%N => esc BSLASH
  | 8%N => esc "b"
  | 12%N => esc "f"
  | 10%N => esc "n"
  | 13%N => esc "r"
  | 9%N => esc "t"
  | n => if (n <? 32)%N then esc "u" ++ pad4_decimal n else str1 c
  end.

Fixpoint spec_escape (s : string) : string :=
  match s with
  | EmptyString => EmptyString
  | String c s' => spec_escape_byte c ++ spec_escape s'
  end.

(** The text that the loop over an [Object] appends for one entry. *)
Definition entry_text {A : Type} (render : A -> string) (kv : string * A)
    : string :=
  str1 DQUOTE ++ escape_string (fst kv) ++ String DQUOTE ":" ++ render (snd kv).

(** The text of one [Object] entry when its key is rendered like a string
    value. *)
Definition spec_entry (fmt : double -> string) (kv : string * JSON) : string :=
  stringify fmt (JString (fst kv)) ++ ":" ++ stringify fmt (snd kv).

(** The text of the object with [a] bound to 2 and [b] bound to 1. *)
Definition text_a2_b1 : string :=
  "{" ++ str1 DQUOTE ++ "a" ++ str1 DQUOTE ++ ":2,"
      ++ str1 DQUOTE ++ "b" ++ str1 DQUOTE ++ ":1}".

(** The whitelist of status codes with their standard reason phrases. *)
Definition reason_phrases : list (Z * string) :=
  [ (200, "OK"); (201, "Created"); (202, "Accepted"); (204, "No Content");
    (400, "Bad Request"); (401, "Unauthorized"); (403, "Forbidden");
    (404, "Not Found"); (405, "Method Not Allowed");
    (500, "Internal Server Error"); (501, "Not Implemented");
    (502, "Bad Gateway"); (503, "Service Unavailable") ].

Definition whitelist : list Z := map fst reason_phrases.

(** The nine known verbs. *)
Definition known_verbs : list string :=
  [ "GET"; "HEAD"; "POST"; "PUT"; "PATCH"; "DELETE"; "CONNECT"; "OPTIONS";
    "TRACE" ].

(** The first binding of [k] in an initializer list. *)
Fixpoint first_binding {V : Type} (k : string) (init : list (string * V))
    : option V :=
  match init with
  | [] => None
  | (k', v) :: init' => if String.eqb k k' then Some v else first_binding k init'
  end.

(** The last binding of [k] in a sequence of assignments. *)
Fixpoint last_binding {V : Type} (k : string) (kvs : list (string * V))
    : option V :=
  match kvs with
  | [] => None
  | (k', v) :: kvs' =>
      match last_binding k kvs' with
      | Some v' => Some v'
      | None => if String.eqb k k' then Some v else None
      end
  end.

(** White space removed on the left, on the right, and on both sides. *)
Fixpoint ltrim (s : string) : string :=
  match s with
  | EmptyString => EmptyString
  | String c s' => if isspace c then ltrim s' else s
  end.

Fixpoint rtrim (s : string) : string :=
  match s with
  | EmptyString => EmptyString
  | String c s' =>
      match rtrim s' with
      | EmptyString => if isspace c then EmptyString else str1 c
      | r => String c r
      end
  end.

Definition spec_trim (s : string) : string := rtrim (ltrim s).

Fixpoint all_space (s : string) : bool :=
  match s with
  | EmptyString => true
  | String c s' => isspace c && all_space s'
  end.

(** The line that the first [getline] of the parser extracts. *)
Definition request_line (raw_request : string) : string :=
  fst (read_until LF raw_request).

(** The integer that a text denotes for the numeric conversion: after
    optional white space and an optional sign, the decimal number written by
    the digits that follow, of which there is one at least; what comes after
    the digits does not count. *)
Fixpoint leading_digits (s : string) : string :=
  match s with
  | EmptyString => EmptyString
  | String c s' => if isdigit c then String c (leading_digits s') else EmptyString
  end.

Fixpoint decimal_value (digits : string) (acc : Z) : Z :=
  match digits with
  | EmptyString => acc
  | String c digits' => decimal_value digits' (10 * acc + digit_value c)
  end.

Definition int_text_value (text : string) : option Z :=
  let s := ltrim text in
  let '(sign, s) :=
    match s with
    | String "-" s' => (-1, s')
    | String "+" s' => (1, s')
    | _ => (1, s)
    end in
  match leading_digits s with
  | EmptyString => None
  | digits => Some (sign * decimal_value digits 0)
  end.

(** A text is a valid integer when it denotes one that fits an [int]. *)
Definition valid_int_text (text : string) : bool :=
  match int_text_value text with
  | Some v => ((INT_MIN <=? v) && (v <=? INT_MAX))%Z
  | None => false
  end.

Definition not_an_int (text : string) : Prop := valid_int_text text = false.

(** The request line has a third token, and after the five characters of
    [HTTP/] are stripped from it the first or the second piece between dots
    is not a valid integer. *)
Definition version_text_fails (line : string) : Prop :=
  exists (p0 p1 p2 : string) (rest : list string)
         (major_text : string) (more : list string),
    split line SPACE = p0 :: p1 :: p2 :: rest
    /\ split (drop 5 p2) "." = major_text :: more
    /\ (not_an_int major_text
        \/ exists (minor_text : string) (more' : list string),
             more = minor_text :: more' /\ not_an_int minor_text).

(** The request line has a third token of fewer than five characters. *)
Definition third_token_short (line : string) : Prop :=
  exists (p0 p1 p2 : string) (rest : list string),
    split line SPACE = p0 :: p1 :: p2 :: rest /\ (String.length p2 < 5)%nat.

(** The header loop with the fuel that [parse_request] gives it. *)
Definition header_loop (stream : string) (headers : StdMap.t string)
    : StdMap.t string * string :=
  read_headers (S (String.length stream)) stream headers.

(** Occurrence of a character in a string. *)
Fixpoint occurs (c : ascii) (s : string) : bool :=
  match s with
  | EmptyString => false
  | String c' s' => Ascii.eqb c' c || occurs c s'
  end.

(** A line of the header block as the specification sees it: a field
    [name:value] split at its first colon, or a line without any colon. *)
Inductive header_line : Type :=
| Field (name value : string)
| NoColon (text : string).

Definition line_text (l : header_line) : string :=
  match l with
  | Field name value => name ++ String ":" value
  | NoColon text => text
  end.

(** A line as [getline] can deliver it: no line feed inside, the name of a
    field has no colon (the split is at the first one), a line of the other
    kind has none at all. *)
Definition line_ok (l : header_line) : bool :=
  match l with
  | Field name value =>
      negb (occurs ":" name) && negb (occurs LF name) && negb (occurs LF value)
  | NoColon text => negb (occurs ":" text) && negb (occurs LF text)
  end.

Definition is_terminator (l : header_line) : bool :=
  String.eqb (line_text l) (str1 CR).

(** A line of the header block that is not the terminator. *)
Definition plain_line (l : header_line) : Prop :=
  line_ok l = true /\ is_terminator l = false.

(** What can follow a complete line: the end of the buffer, or the line feed
    that ends the line and the rest of the buffer. *)
Definition ends_line (tail : string) : Prop :=
  tail = "" \/ exists rest : string, tail = String LF rest.

(** What the specification stores for a line. *)
Definition spec_store (headers : StdMap.t string) (l : header_line)
    : StdMap.t string :=
  match l with
  | Field name value => StdMap.assign (spec_trim name) (spec_trim value) headers
  | NoColon _ => headers
  end.

(** The fields of a header block as (trimmed name, trimmed value) pairs. *)
Fixpoint fields_of (ls : list header_line) : list (string * string) :=
  match ls with
  | [] => []
  | Field name value :: ls' => (spec_trim name, spec_trim value) :: fields_of ls'
  | NoColon _ :: ls' => fields_of ls'
  end.

(** The header map that the specification builds from a header block. *)
Definition spec_headers (ls : list header_line) : StdMap.t string :=
  fold_left spec_store ls StdMap.empty.

(** The line [l] in the form the specification looks at it. *)
Definition classify (l : string) : header_line :=
  match find_char ":" l with
  | Some colon_pos => Field (take colon_pos l) (drop (colon_pos + 1) l)
  | None => NoColon l
  end.

(** The header block on the wire: every line preceded by the line feed that
    ends the line before it. *)
Fixpoint block_text (ls : list header_line) : string :=
  match ls with
  | [] => EmptyString
  | l :: ls' => String LF (line_text l ++ block_text ls')
  end.

(** The response text of the specification. *)
Definition spec_header_line (h : string * string) : string :=
  fst h ++ ": " ++ snd h ++ CRLF.

Definition spec_response_text (r : Response.t) : string :=
  "HTTP/" ++ to_string (major (Response.version r)) ++ "."
    ++ to_string (minor (Response.version r)) ++ " "
    ++ to_string (Response.status r) ++ " " ++ Response.status_message r
    ++ CRLF
    ++ String.concat "" (map spec_header_line (Response.headers r))
    ++ CRLF ++ Response.body r.

(** ** Further vocabulary for the properties of the helpers *)

(** Number of occurrences of a character in a string. *)
Fixpoint count_char (c : ascii) (s : string) : nat :=
  match s with
  | EmptyString => O
  | String x s' => ((if Ascii.eqb x c then 1 else 0) + count_char c s')%nat
  end.

(** The last character of the string is [c]. *)
Fixpoint ends_with (c : ascii) (s : string) : bool :=
  match s with
  | EmptyString => false
  | String x s' =>
      match s' with
      | EmptyString => Ascii.eqb x c
      | _ => ends_with c s'
      end
  end.

(** The first, the last character of the string is white space. *)
Definition starts_with_space (s : string) : bool :=
  match s with
  | EmptyString => false
  | String c _ => isspace c
  end.

Fixpoint ends_with_space (s : string) : bool :=
  match s with
  | EmptyString => false
  | String c s' =>
      match s' with
      | EmptyString => isspace c
      | _ => ends_with_space s'
      end
  end.

(** No byte of the string is a control character (below 0x20). *)
Fixpoint no_control (s : string) : bool :=
  match s with
  | EmptyString => true
  | String c s' => (32 <=? N_of_ascii c)%N && no_control s'
  end.

(** A reader of the first escaped character of a text: the character and the
    text behind it.  It serves to show that escaping loses nothing. *)
Definition digit_of (c : ascii) : N := (N_of_ascii c - 48)%N.

Definition unescape_step (s : string) : option (ascii * string) :=
  match s with
  | EmptyString => None
  | String c rest =>
      if Ascii.eqb c BSLASH then
        match rest with
        | EmptyString => None
        | String x rest' =>
            if Ascii.eqb x "u" then
              match rest' with
              | String d3 (String d2 (String d1 (String d0 rest''))) =>
                  Some (ascii_of_N (1000 * digit_of d3 + 100 * digit_of d2
                                    + 10 * digit_of d1 + digit_of d0)%N,
                        rest'')
              | _ => None
              end
            else if Ascii.eqb x "b" then Some (BS, rest')
            else if Ascii.eqb x "f" then Some (FF, rest')
            else if Ascii.eqb x "n" then Some (LF, rest')
            else if Ascii.eqb x "r" then Some (CR, rest')
            else if Ascii.eqb x "t" then Some (TAB, rest')
            else Some (x, rest')
        end
      else Some (c, rest)
  end.

(** The first character of the string is a decimal digit. *)
Definition starts_with_digit (s : string) : bool :=
  match s with
  | EmptyString => false
  | String c _ => isdigit c
  end.

(** Every character of the string is a decimal digit or the minus sign. *)
Fixpoint digits_or_minus (s : string) : bool :=
  match s with
  | EmptyString => true
  | String c s' => (isdigit c || Ascii.eqb c "-") && digits_or_minus s'
  end.

(** The line that stands for a header [name: value] of a response or of a
    request on the wire, and a header that such a line carries unchanged: no
    colon in the name, no line feed, no white space at either end. *)
Definition wire_line (h : string * string) : header_line :=
  Field (fst h) (String SPACE (snd h ++ str1 CR)).

Definition wire_safe (h : string * string) : Prop :=
  occurs ":" (fst h) = false /\ occurs LF (fst h) = false
  /\ occurs LF (snd h) = false
  /\ trim (fst h) = fst h /\ trim (snd h) = snd h.

(** The text of a request: the request line, the headers written as
    [construct_response] writes them, an empty line, the body. *)
Definition request_text (method : Method) (uri : string) (version : Version)
    (headers : StdMap.t string) (body : string) : string :=
  method_to_string method ++ " " ++ uri ++ " HTTP/"
    ++ to_string (major version) ++ "." ++ to_string (minor version) ++ CRLF
    ++ String.concat "" (map spec_header_line headers)
    ++ CRLF ++ body.

(** What follows the status line in the text of a response: the headers,
    the empty line and the JSON text of the body. *)
Definition response_rest (fmt : double -> string) (body : JSON)
    (headers : StdMap.t string) : string :=
  CRLF ++ String.concat "" (map spec_header_line headers)
    ++ CRLF ++ stringify fmt body.

(** * Properties *)

(** ** Strings *)

Lemma append_nil_r (s : string) : s ++ "" = s.
Proof. induction s as [|c s IH]; simpl; [reflexivity | now rewrite IH]. Qed.

Lemma append_assoc (a b c : string) : (a ++ b) ++ c = a ++ (b ++ c).
Proof. induction a as [|x a IH]; simpl; [reflexivity | now rewrite IH]. Qed.

Lemma length_append (a b : string) :
  String.length (a ++ b) = (String.length a + String.length b)%nat.
Proof. induction a as [|x a IH]; simpl; [reflexivity | now rewrite IH]. Qed.

Lemma append_inv_head (a b c : string) : a ++ b = a ++ c -> b = c.
Proof.
  induction a as [|x a IH]; simpl; intros H; [exact H |].
  injection H as H. auto.
Qed.

(** ** JSON strings *)

Lemma escape_char_spec (c : ascii) : escape_char c = spec_escape_byte c.
Proof.
  destruct c as [b0 b1 b2 b3 b4 b5 b6 b7].
  destruct b0, b1, b2, b3, b4, b5, b6, b7; reflexivity.
Qed.

Lemma escape_loop_result (s result : string) :
  escape_loop s result = result ++ escape_loop s "".
Proof.
  revert result; induction s as [|c s IH]; intros result; simpl.
  - now rewrite append_nil_r.
  - rewrite IH, (IH (escape_char c)). now rewrite append_assoc.
Qed.

Lemma escape_string_spec (s : string) : escape_string s = spec_escape s.
Proof.
  unfold escape_string.
  induction s as [|c s IH]; simpl; [reflexivity |].
  rewrite escape_loop_result, IH. now rewrite escape_char_spec.
Qed.

(** C3. A string value is rendered between two double quotes, every byte
    replaced by its escape: the seven named escapes, a backslash, [u] and the
    decimal value on four digits for the other bytes below 0x20 (so 0x0B gives
    [\u0011]), the byte itself otherwise. *)
Theorem C3_stringify_string (fmt : double -> string) (s : string) :
  stringify fmt (JString s) = str1 DQUOTE ++ spec_escape s ++ str1 DQUOTE
  /\ spec_escape_byte VT = "\u0011"
  /\ stringify fmt (JString (str1 VT)) = str1 DQUOTE ++ "\u0011" ++ str1 DQUOTE.
Proof.
  split; [| split; reflexivity].
  simpl. now rewrite escape_string_spec.
Qed.

(** ** JSON arrays and objects *)

Section LoopFacts.

Context {A : Type}.
Variable render : A -> string.

Lemma object_loop_spec (rest : StdMap.t A) (first : bool) (result : string) :
  object_loop render rest first result
  = result
      ++ (if first then "" else match rest with [] => "" | _ => "," end)
      ++ String.concat "," (map (entry_text render) rest).
Proof.
  revert first result.
  induction rest as [|[key value] rest IH]; intros first result.
  - destruct first; simpl; now rewrite append_nil_r.
  - cbn [object_loop]. rewrite IH. cbn [map]. unfold entry_text at 2.
    cbn [fst snd].
    destruct first, rest as [|kv rest]; cbn [negb String.concat map];
      rewrite ?append_assoc; cbn [append]; rewrite ?append_nil_r;
      rewrite ?append_assoc; reflexivity.
Qed.

Lemma array_loop_spec (rest : list A) (i : nat) (result : string) :
  array_loop render rest i result
  = result
      ++ (if (0 <? i)%nat then match rest with [] => "" | _ => "," end else "")
      ++ String.concat "," (map render rest).
Proof.
  revert i result.
  induction rest as [|x rest IH]; intros i result.
  - destruct i; simpl; now rewrite append_nil_r.
  - cbn [array_loop]. rewrite IH.
    destruct i, rest as [|y rest];
      cbn [String.concat map Nat.ltb Nat.leb];
      rewrite ?append_assoc; cbn [append]; rewrite ?append_nil_r;
      rewrite ?append_assoc; reflexivity.
Qed.

End LoopFacts.

Lemma stringify_array (fmt : double -> string) (a : list JSON) :
  stringify fmt (JArray a)
  = "[" ++ String.concat "," (map (stringify fmt) a) ++ "]".
Proof.
  cbn [stringify]. rewrite array_loop_spec. cbn [Nat.ltb Nat.leb append].
  now rewrite ?append_assoc.
Qed.

Lemma stringify_object (fmt : double -> string) (o : StdMap.t JSON) :
  stringify fmt (JObject o)
  = "{" ++ String.concat "," (map (entry_text (stringify fmt)) o) ++ "}".
Proof.
  cbn [stringify]. rewrite object_loop_spec. cbn [append].
  now rewrite ?append_assoc.
Qed.

Lemma stringify_empty (fmt : double -> string) :
  stringify fmt (array []) = "[]" /\ stringify fmt (object []) = "{}"
  /\ stringify fmt JNull = "null".
Proof. repeat split. Qed.

Lemma entry_text_spec (fmt : double -> string) (kv : string * JSON) :
  entry_text (stringify fmt) kv = spec_entry fmt kv.
Proof.
  unfold entry_text, spec_entry. cbn [stringify].
  rewrite !append_assoc. reflexivity.
Qed.

Lemma stringify_object_entries (fmt : double -> string) (o : StdMap.t JSON) :
  stringify fmt (JObject o)
  = "{" ++ String.concat "," (map (spec_entry fmt) o) ++ "}".
Proof.
  rewrite stringify_object.
  now rewrite (map_ext _ _ (entry_text_spec fmt)).
Qed.

(** C10. In an object every key is written as the string value with the same
    text would be: between double quotes and with the same escapes; the entries
    are [key:value], separated by commas, between braces. *)
Theorem C10_object_keys_escaped (fmt : double -> string) (o : StdMap.t JSON) :
  stringify fmt (JObject o)
  = "{" ++ String.concat "," (map (spec_entry fmt) o) ++ "}".
Proof. apply stringify_object_entries. Qed.

(** ** Status codes and methods *)

Lemma status_message_unknown (r : Response.t) :
  ~ In (Response.status r) whitelist ->
  Response.status_message r = "Unknown Status".
Proof.
  intros H. unfold Response.status_message.
  repeat match goal with
         | |- context [(?a =? ?b)%Z] =>
             destruct (Z.eqb_spec a b) as [e|_];
             [exfalso; apply H; rewrite e; cbv; tauto |]
         end.
  reflexivity.
Qed.

Lemma status_message_listed (r : Response.t) (phrase : string) :
  In (Response.status r, phrase) reason_phrases ->
  Response.status_message r = phrase.
Proof.
  intros H. unfold reason_phrases in H. simpl in H.
  repeat destruct H as [H|H]; try contradiction;
    injection H as Hs Hp; subst phrase;
    unfold Response.status_message; rewrite <- Hs; reflexivity.
Qed.

(** C7. The reason phrase of a status outside the thirteen listed codes, any
    [int] converted to [HttpStatus] included, is [Unknown Status]; the reason
    phrase of a listed code is its standard one. *)
Theorem C7_status_message (r : Response.t) :
  (~ In (Response.status r) whitelist ->
   Response.status_message r = "Unknown Status")
  /\ (forall phrase, In (Response.status r, phrase) reason_phrases ->
      Response.status_message r = phrase).
Proof.
  split; [apply status_message_unknown | apply status_message_listed].
Qed.

Lemma C7_status_message_witness :
  Response.status_message (Response.mk (mkVersion 1 1) 418 [] "")
  = "Unknown Status"
  /\ Response.status_message (Response.mk (mkVersion 1 1) 503 [] "")
     = "Service Unavailable".
Proof.
  split.
  - apply (proj1 (C7_status_message (Response.mk (mkVersion 1 1) 418 [] ""))).
    cbv. intuition discriminate.
  - apply (proj2 (C7_status_message (Response.mk (mkVersion 1 1) 503 [] ""))).
    cbv. tauto.
Defined.

Lemma string_to_method_unknown (s : string) :
  ~ In s known_verbs -> string_to_method s = UNKNOWN.
Proof.
  intros H. unfold string_to_method.
  repeat match goal with
         | |- context [String.eqb ?a ?b] =>
             destruct (String.eqb_spec a b) as [e|_];
             [exfalso; apply H; rewrite e; simpl; tauto |]
         end.
  reflexivity.
Qed.

Lemma string_to_method_known (s : string) :
  In s known_verbs -> method_to_string (string_to_method s) = s.
Proof.
  intros H. simpl in H.
  repeat destruct H as [H|H]; try contradiction; subst s; reflexivity.
Qed.

(** C8. Converting a method to its name and back gives the method again,
    [UNKNOWN] (written [UNKNOWN]) included; a string that is not one of the
    nine verbs, letter case observed, converts to [UNKNOWN]. *)
Theorem C8_method_round_trip :
  (forall m : Method, string_to_method (method_to_string m) = m)
  /\ method_to_string UNKNOWN = "UNKNOWN"
  /\ (forall s : string, ~ In s known_verbs -> string_to_method s = UNKNOWN)
  /\ string_to_method "get" = UNKNOWN.
Proof.
  split; [| split; [| split]].
  - intros m; destruct m; reflexivity.
  - reflexivity.
  - apply string_to_method_unknown.
  - reflexivity.
Qed.

Lemma C8_method_round_trip_witness : string_to_method "Post" = UNKNOWN.
Proof.
  apply (proj1 (proj2 (proj2 C8_method_round_trip)) "Post").
  simpl. intuition discriminate.
Defined.

(** ** The ordered map *)

Module StdMapFacts.

Import StdMap.

Lemma key_lt_trans (a b c : string) : key_lt a b -> key_lt b c -> key_lt a c.
Proof.
  exact (@StrictOrder_Transitive _ _ String_as_OT.lt_strorder a b c).
Qed.

Lemma key_lt_irrefl (a : string) : ~ key_lt a a.
Proof.
  exact (@StrictOrder_Irreflexive _ _ String_as_OT.lt_strorder a).
Qed.

Lemma compare_cases (a b : string) :
  CompSpec eq key_lt a b (String.compare a b).
Proof. exact (String_as_OT.compare_spec a b). Qed.

Lemma compare_refl (a : string) : String.compare a a = Eq.
Proof.
  destruct (compare_cases a a) as [_|H|H]; [reflexivity | |];
    now apply key_lt_irrefl in H.
Qed.

Lemma eqb_compare (a b : string) :
  String.eqb a b = match String.compare a b with Eq => true | _ => false end.
Proof.
  destruct (String.eqb_spec a b) as [->|n].
  - now rewrite compare_refl.
  - destruct (String.compare a b) eqn:E; try reflexivity.
    now apply String.compare_eq_iff in E.
Qed.

Section WithValues.

Context {V : Type}.
Implicit Types (m : t V) (k : string) (v : V).

Lemma ok_nil : ok (@empty V).
Proof. constructor. Qed.

Lemma ok_cons k v m :
  ok ((k, v) :: m) <-> ok m /\ Forall (key_lt k) (keys m).
Proof.
  unfold ok; cbn [keys map fst]. split.
  - apply StronglySorted_inv.
  - intros [H1 H2]. now constructor.
Qed.

Lemma find_above k m : Forall (key_lt k) (keys m) -> find k m = None.
Proof.
  induction m as [|[k' v'] m IH]; cbn [keys map fst find]; intros H.
  - reflexivity.
  - inversion H as [|? ? Hlt Hrest]; subst.
    rewrite eqb_compare. unfold key_lt in Hlt. rewrite Hlt. now apply IH.
Qed.

Lemma keys_insert_Forall (P : string -> Prop) k v m :
  P k -> Forall P (keys m) -> Forall P (keys (insert k v m)).
Proof.
  intros Hk. induction m as [|[k' v'] m IH]; cbn [insert keys map fst].
  - intros _. now repeat constructor.
  - intros H. inversion H as [|? ? Hk' Hm]; subst.
    destruct (String.compare k k'); cbn [keys map fst].
    + exact H.
    + now constructor.
    + constructor; [exact Hk' | now apply IH].
Qed.

Lemma keys_assign_Forall (P : string -> Prop) k v m :
  P k -> Forall P (keys m) -> Forall P (keys (assign k v m)).
Proof.
  intros Hk. induction m as [|[k' v'] m IH]; cbn [assign keys map fst].
  - intros _. now repeat constructor.
  - intros H. inversion H as [|? ? Hk' Hm]; subst.
    destruct (String.compare k k'); cbn [keys map fst].
    + now constructor.
    + now constructor.
    + constructor; [exact Hk' | now apply IH].
Qed.

Lemma Forall_key_lt_trans a b (l : list string) :
  key_lt a b -> Forall (key_lt b) l -> Forall (key_lt a) l.
Proof.
  intros Hab H. eapply Forall_impl; [| exact H].
  intros c Hbc. now apply key_lt_trans with b.
Qed.

Lemma insert_ok k v m : ok m -> ok (insert k v m).
Proof.
  induction m as [|[k' v'] m IH]; cbn [insert]; intros H.
  - apply ok_cons. split; [apply ok_nil | constructor].
  - pose proof H as H0. apply ok_cons in H0 as [Hm Hall].
    destruct (compare_cases k k') as [->|Hlt|Hgt].
    + exact H.
    + apply ok_cons. split; [exact H |].
      cbn [keys map fst]. constructor; [exact Hlt |].
      now apply Forall_key_lt_trans with k'.
    + apply ok_cons. split; [now apply IH |].
      now apply keys_insert_Forall.
Qed.

Lemma assign_ok k v m : ok m -> ok (assign k v m).
Proof.
  induction m as [|[k' v'] m IH]; cbn [assign]; intros H.
  - apply ok_cons. split; [apply ok_nil | constructor].
  - pose proof H as H0. apply ok_cons in H0 as [Hm Hall].
    destruct (compare_cases k k') as [->|Hlt|Hgt].
    + apply ok_cons. now split.
    + apply ok_cons. split; [exact H |].
      cbn [keys map fst]. constructor; [exact Hlt |].
      now apply Forall_key_lt_trans with k'.
    + apply ok_cons. split; [now apply IH |].
      now apply keys_assign_Forall.
Qed.

Lemma find_insert k v m k0 :
  ok m ->
  find k0 (insert k v m)
  = match find k0 m with
    | Some x => Some x
    | None => if String.eqb k0 k then Some v else None
    end.
Proof.
  induction m as [|[k' v'] m IH]; cbn [insert find]; intros H.
  - reflexivity.
  - apply ok_cons in H as [Hm Hall].
    destruct (compare_cases k k') as [->|Hlt|Hgt]; cbn [find].
    + destruct (String.eqb k0 k'); [reflexivity |].
      now destruct (find k0 m).
    + destruct (String.eqb_spec k0 k) as [E|n].
      * rewrite E, eqb_compare. unfold key_lt in Hlt. rewrite Hlt.
        rewrite find_above; [reflexivity |].
        now apply Forall_key_lt_trans with k'.
      * destruct (String.eqb k0 k'); [reflexivity |].
        now destruct (find k0 m).
    + destruct (String.eqb k0 k'); [reflexivity | now apply IH].
Qed.

Lemma find_assign k v m k0 :
  ok m ->
  find k0 (assign k v m) = if String.eqb k0 k then Some v else find k0 m.
Proof.
  induction m as [|[k' v'] m IH]; cbn [assign find]; intros H.
  - reflexivity.
  - apply ok_cons in H as [Hm Hall].
    destruct (compare_cases k k') as [->|Hlt|Hgt]; cbn [find].
    + now destruct (String.eqb k0 k').
    + reflexivity.
    + destruct (String.eqb_spec k0 k') as [E|n].
      * rewrite E, eqb_compare.
        assert (E' : String.compare k' k = Lt) by exact Hgt.
        now rewrite E'.
      * now apply IH.
Qed.

Lemma find_In k v m : ok m -> (In (k, v) m <-> find k m = Some v).
Proof.
  induction m as [|[k' v'] m IH]; cbn [find In]; intros H.
  - split; [contradiction | discriminate].
  - apply ok_cons in H as [Hm Hall].
    destruct (String.eqb_spec k k') as [E|n].
    + subst k'. split.
      * intros [E|Hin]; [now inversion E |].
        apply IH in Hin; [| exact Hm].
        rewrite find_above in Hin; [discriminate | exact Hall].
      * intros E. left. now inversion E.
    + rewrite <- IH by exact Hm. split.
      * intros [E|Hin]; [inversion E; congruence | exact Hin].
      * now right.
Qed.

(** Two maps with the same bindings are the same list. *)
Lemma ok_ext m1 m2 :
  ok m1 -> ok m2 -> (forall k, find k m1 = find k m2) -> m1 = m2.
Proof.
  revert m2.
  induction m1 as [|[k1 v1] m1 IH]; intros [|[k2 v2] m2] H1 H2 E.
  - reflexivity.
  - specialize (E k2). cbn [find] in E. rewrite String.eqb_refl in E.
    discriminate.
  - specialize (E k1). cbn [find] in E. rewrite String.eqb_refl in E.
    discriminate.
  - apply ok_cons in H1 as [Hm1 Hall1]. apply ok_cons in H2 as [Hm2 Hall2].
    destruct (compare_cases k1 k2) as [->|Hlt|Hgt].
    + pose proof (E k2) as E2. cbn [find] in E2.
      rewrite String.eqb_refl in E2. injection E2 as ->.
      f_equal. apply IH; [exact Hm1 | exact Hm2 |].
      intros k. specialize (E k). cbn [find] in E.
      destruct (String.eqb_spec k k2) as [Ek|n]; [| exact E].
      subst k. now rewrite !find_above.
    + exfalso. specialize (E k1). cbn [find] in E.
      rewrite String.eqb_refl, eqb_compare in E.
      unfold key_lt in Hlt. rewrite Hlt in E.
      rewrite find_above in E; [discriminate |].
      now apply Forall_key_lt_trans with k2.
    + exfalso. specialize (E k2). cbn [find] in E.
      rewrite String.eqb_refl, eqb_compare in E.
      assert (E' : String.compare k2 k1 = Lt) by exact Hgt.
      rewrite E' in E.
      rewrite find_above in E; [discriminate |].
      now apply Forall_key_lt_trans with k1.
Qed.

Lemma fold_insert_ok (init : list (string * V)) m :
  ok m -> ok (fold_left (fun m kv => insert (fst kv) (snd kv) m) init m).
Proof.
  revert m; induction init as [|[k v] init IH]; intros m H; cbn [fold_left].
  - exact H.
  - apply IH. now apply insert_ok.
Qed.

Lemma of_range_ok (init : list (string * V)) : ok (of_range init).
Proof. apply fold_insert_ok, ok_nil. Qed.

Lemma find_fold_insert (init : list (string * V)) m k :
  ok m ->
  find k (fold_left (fun m kv => insert (fst kv) (snd kv) m) init m)
  = match find k m with
    | Some x => Some x
    | None => first_binding k init
    end.
Proof.
  revert m; induction init as [|[k' v'] init IH]; intros m H;
    cbn [fold_left first_binding fst snd].
  - now destruct (find k m).
  - rewrite IH by now apply insert_ok.
    rewrite find_insert by exact H.
    destruct (find k m); [reflexivity |].
    now destruct (String.eqb k k').
Qed.

Lemma find_of_range (init : list (string * V)) k :
  find k (of_range init) = first_binding k init.
Proof. unfold of_range. now rewrite find_fold_insert by apply ok_nil. Qed.

(** Every ordered list is the map built from itself. *)
Lemma of_range_self m : ok m -> of_range m = m.
Proof.
  intros H. apply ok_ext; [apply of_range_ok | exact H |].
  intros k. rewrite find_of_range.
  clear H. induction m as [|[k' v'] m IH]; cbn [first_binding find].
  - reflexivity.
  - now rewrite IH.
Qed.

Lemma first_binding_In (init : list (string * V)) k v :
  NoDup (map fst init) -> (first_binding k init = Some v <-> In (k, v) init).
Proof.
  induction init as [|[k' v'] init IH]; cbn [first_binding map fst In];
    intros H.
  - split; [discriminate | contradiction].
  - inversion H as [|? ? Hnotin Hnodup]; subst.
    destruct (String.eqb_spec k k') as [E|n].
    + subst k'. split.
      * intros E. left. now inversion E.
      * intros [E|Hin]; [now inversion E |].
        exfalso. apply Hnotin. now apply (in_map fst) in Hin.
    + rewrite IH by exact Hnodup. split.
      * now right.
      * intros [E|Hin]; [inversion E; congruence | exact Hin].
Qed.

Lemma of_range_Permutation (init init' : list (string * V)) :
  NoDup (map fst init) -> Permutation init init' ->
  of_range init' = of_range init.
Proof.
  intros Hnd Hp.
  assert (Hnd' : NoDup (map fst init')).
  { eapply Permutation_NoDup; [| exact Hnd]. now apply Permutation_map. }
  apply ok_ext; try apply of_range_ok.
  intros k. rewrite !find_of_range.
  destruct (first_binding k init) as [v|] eqn:E.
  - apply first_binding_In; [exact Hnd' |].
    apply first_binding_In in E; [| exact Hnd].
    now apply Permutation_in with init.
  - destruct (first_binding k init') as [v|] eqn:E'; [| reflexivity].
    apply first_binding_In in E'; [| exact Hnd'].
    apply Permutation_sym in Hp.
    apply (Permutation_in _ Hp) in E'.
    apply first_binding_In in E'; [| exact Hnd]. congruence.
Qed.

End WithValues.

End StdMapFacts.

(** ** Objects are written in key order *)

Lemma stringify_object_of_range (fmt : double -> string)
    (init : list (string * JSON)) :
  stringify fmt (object init)
  = "{" ++ String.concat "," (map (spec_entry fmt) (StdMap.of_range init)) ++ "}".
Proof. unfold object. apply stringify_object_entries. Qed.

(** C4. The entries of an object are written in ascending order of their
    keys, whatever the order of the initializer list they come from: the
    written entries are those of the list (the first one of a repeated key),
    sorted; two lists with the same entries and distinct keys give the same
    text; both orders of [b:1] and [a:2] give [{"a":2,"b":1}]. *)
Theorem C4_object_key_order (fmt : double -> string)
    (init : list (string * JSON)) :
  (exists entries : list (string * JSON),
      stringify fmt (object init)
      = "{" ++ String.concat "," (map (spec_entry fmt) entries) ++ "}"
      /\ StronglySorted StdMap.key_lt (map fst entries)
      /\ (forall k v, In (k, v) entries <-> first_binding k init = Some v))
  /\ (forall init' : list (string * JSON),
        NoDup (map fst init) -> Permutation init init' ->
        stringify fmt (object init') = stringify fmt (object init))
  /\ stringify fmt (object [("b", JInt 1); ("a", JInt 2)]) = text_a2_b1
  /\ stringify fmt (object [("a", JInt 2); ("b", JInt 1)]) = text_a2_b1.
Proof.
  split; [| split; [| split; reflexivity]].
  - exists (StdMap.of_range init). split; [| split].
    + apply stringify_object_of_range.
    + apply StdMapFacts.of_range_ok.
    + intros k v. rewrite StdMapFacts.find_In by apply StdMapFacts.of_range_ok.
      now rewrite StdMapFacts.find_of_range.
  - intros init' Hnd Hp. unfold object.
    now rewrite (StdMapFacts.of_range_Permutation init init' Hnd Hp).
Qed.

Lemma C4_object_key_order_witness :
  stringify (fun _ => "") (object [("a", JInt 2); ("b", JInt 1)])
  = stringify (fun _ => "") (object [("b", JInt 1); ("a", JInt 2)]).
Proof.
  apply (proj1 (proj2 (C4_object_key_order (fun _ => "")
                          [("b", JInt 1); ("a", JInt 2)]))).
  - simpl. repeat constructor; simpl; intuition discriminate.
  - apply perm_swap.
Defined.

(** ** The response writer *)

Lemma concat_empty_cons (x : string) (l : list string) :
  String.concat "" (x :: l) = x ++ String.concat "" l.
Proof. destruct l; simpl; [now rewrite append_nil_r | reflexivity]. Qed.

Lemma fold_left_append {A : Type} (f : A -> string) (l : list A) (acc : string) :
  fold_left (fun stream x => stream ++ f x) l acc
  = acc ++ String.concat "" (map f l).
Proof.
  revert acc; induction l as [|x l IH]; intros acc; cbn [fold_left map].
  - simpl. now rewrite append_nil_r.
  - rewrite IH, concat_empty_cons. now rewrite append_assoc.
Qed.

Lemma construct_response_spec (r : Response.t) :
  construct_response r = spec_response_text r.
Proof.
  unfold construct_response, spec_response_text, spec_header_line.
  rewrite fold_left_append. rewrite !append_assoc. reflexivity.
Qed.

(** The factory for 404 with its default arguments gives the response of
    the example. *)
Lemma not_found_response_text (fmt : double -> string) :
  construct_response (HTTP_404_NOT_FOUND fmt JNull default_headers)
  = "HTTP/1.1 404 Not Found" ++ CRLF
      ++ "Content-Type: application/json" ++ CRLF ++ CRLF ++ "null".
Proof. reflexivity. Qed.

(** C5. The response text is the status line
    [HTTP/major.minor status reason] and CR LF, one line [name: value] and
    CR LF for each header in the order of the map, which is ascending in the
    keys for a map built from any initializer list, an empty line, and the
    body as it is. *)
Theorem C5_construct_response :
  (forall r : Response.t, construct_response r = spec_response_text r)
  /\ (forall (version : Version) (status : HttpStatus.t)
        (init : list (string * string)) (body : string),
        exists entries : list (string * string),
          construct_response
            (Response.mk version status (StdMap.of_range init) body)
          = "HTTP/" ++ to_string (major version) ++ "."
              ++ to_string (minor version) ++ " " ++ to_string status ++ " "
              ++ Response.status_message
                   (Response.mk version status (StdMap.of_range init) body)
              ++ CRLF
              ++ String.concat "" (map spec_header_line entries)
              ++ CRLF ++ body
          /\ StronglySorted StdMap.key_lt (map fst entries)
          /\ (forall k v, In (k, v) entries <-> first_binding k init = Some v))
  /\ construct_response
       (Response.mk (mkVersion 1 1) HttpStatus.NOT_FOUND
          (StdMap.of_range [("Content-Type", "application/json")]) "null")
     = "HTTP/1.1 404 Not Found" ++ CRLF
         ++ "Content-Type: application/json" ++ CRLF ++ CRLF ++ "null".
Proof.
  split; [| split; [| reflexivity]].
  - apply construct_response_spec.
  - intros version status init body. exists (StdMap.of_range init).
    split; [| split].
    + now rewrite construct_response_spec.
    + apply StdMapFacts.of_range_ok.
    + intros k v. rewrite StdMapFacts.find_In by apply StdMapFacts.of_range_ok.
      now rewrite StdMapFacts.find_of_range.
Qed.

(** ** Streams: [getline] and the loops that call it *)

Lemma read_until_length (delim : ascii) (stream : string) :
  (String.length (snd (read_until delim stream)) <= String.length stream)%nat.
Proof.
  induction stream as [|c s IH]; cbn [read_until]; [simpl; lia |].
  destruct (Ascii.eqb c delim); [simpl; lia |].
  destruct (read_until delim s) as [line rest]. simpl in *. lia.
Qed.

Lemma getline_length (stream : string) (delim : ascii) (line rest : string) :
  getline stream delim = Some (line, rest) ->
  (String.length rest < String.length stream)%nat.
Proof.
  destruct stream as [|c s]; [discriminate |].
  unfold getline. cbn [read_until]. intros H. injection H as H.
  destruct (Ascii.eqb c delim).
  - injection H as _ <-. simpl. lia.
  - pose proof (read_until_length delim s) as L.
    destruct (read_until delim s) as [l r]. injection H as _ <-.
    simpl in *. lia.
Qed.

Lemma read_until_app (delim : ascii) (line rest : string) :
  occurs delim line = false ->
  read_until delim (line ++ String delim rest) = (line, rest).
Proof.
  induction line as [|c l IH]; cbn [occurs append read_until]; intros H.
  - now rewrite Ascii.eqb_refl.
  - apply orb_false_iff in H as [Hc Hl]. rewrite Hc. now rewrite IH.
Qed.

Lemma read_until_all (delim : ascii) (line : string) :
  occurs delim line = false -> read_until delim line = (line, "").
Proof.
  induction line as [|c l IH]; cbn [occurs read_until]; intros H.
  - reflexivity.
  - apply orb_false_iff in H as [Hc Hl]. rewrite Hc. now rewrite IH.
Qed.

Lemma getline_app (delim : ascii) (line rest : string) :
  occurs delim line = false ->
  getline (line ++ String delim rest) delim = Some (line, rest).
Proof.
  intros H. unfold getline. rewrite read_until_app by exact H.
  now destruct line.
Qed.

Lemma getline_all (delim : ascii) (line : string) :
  occurs delim line = false -> line <> "" ->
  getline line delim = Some (line, "").
Proof.
  intros H Hne. unfold getline. rewrite read_until_all by exact H.
  now destruct line.
Qed.

(** The fuel of [split] is never used up. *)
Lemma split_loop_fuel (delim : ascii) (f1 f2 : nat) (stream : string)
    (tokens : list string) :
  (String.length stream < f1)%nat -> (String.length stream < f2)%nat ->
  split_loop f1 stream delim tokens = split_loop f2 stream delim tokens.
Proof.
  revert f2 stream tokens.
  induction f1 as [|f1 IH]; intros f2 stream tokens H1 H2; [lia |].
  destruct f2 as [|f2]; [lia |]. cbn [split_loop].
  destruct (getline stream delim) as [[token rest]|] eqn:E; [| reflexivity].
  apply getline_length in E. apply IH; lia.
Qed.

Lemma split_loop_tokens (delim : ascii) (fuel : nat) (stream : string)
    (tokens : list string) :
  split_loop fuel stream delim tokens
  = (tokens ++ split_loop fuel stream delim [])%list.
Proof.
  revert stream tokens.
  induction fuel as [|f IH]; intros stream tokens; cbn [split_loop].
  - now rewrite app_nil_r.
  - destruct (getline stream delim) as [[token rest]|]; [| now rewrite app_nil_r].
    rewrite IH, (IH rest ([] ++ [token])%list). cbn [app].
    now rewrite <- app_assoc.
Qed.

Lemma split_empty (delim : ascii) : split "" delim = [].
Proof. reflexivity. Qed.

Lemma split_last (delim : ascii) (token : string) :
  occurs delim token = false -> token <> "" -> split token delim = [token].
Proof.
  intros H Hne. unfold split. cbn [split_loop].
  rewrite getline_all by assumption. now destruct (String.length token).
Qed.

Lemma split_cons (delim : ascii) (token rest : string) :
  occurs delim token = false ->
  split (token ++ String delim rest) delim = token :: split rest delim.
Proof.
  intros H. unfold split at 1. cbn [split_loop].
  rewrite getline_app by exact H.
  rewrite split_loop_tokens. cbn [app]. f_equal.
  unfold split. apply split_loop_fuel; [| lia].
  rewrite length_append. simpl. lia.
Qed.

(** The fuel of the header loop is never used up. *)
Lemma read_headers_fuel (f1 f2 : nat) (stream : string)
    (headers : StdMap.t string) :
  (String.length stream < f1)%nat -> (String.length stream < f2)%nat ->
  read_headers f1 stream headers = read_headers f2 stream headers.
Proof.
  revert f2 stream headers.
  induction f1 as [|f1 IH]; intros f2 stream headers H1 H2; [lia |].
  destruct f2 as [|f2]; [lia |]. cbn [read_headers].
  destruct (getline stream LF) as [[line rest]|] eqn:E; [| reflexivity].
  destruct (String.eqb line (str1 CR)); [reflexivity |].
  apply getline_length in E. apply IH; lia.
Qed.

(** ** [trim] removes the white space on both sides *)

Lemma drop_find_if_not_space (s : string) : drop (find_if_not_space s) s = ltrim s.
Proof.
  induction s as [|c s IH]; cbn [find_if_not_space ltrim]; [reflexivity |].
  destruct (isspace c); [exact IH | reflexivity].
Qed.

Lemma rev_string_app (a b acc : string) :
  rev_string (a ++ b) acc = rev_string b (rev_string a acc).
Proof.
  revert acc; induction a as [|c a IH]; intros acc; cbn [append rev_string];
    [reflexivity | apply IH].
Qed.

Lemma find_if_not_space_rev (post acc : string) :
  all_space post = true ->
  find_if_not_space (rev_string post acc)
  = (String.length post + find_if_not_space acc)%nat.
Proof.
  revert acc; induction post as [|c post IH]; intros acc;
    cbn [all_space rev_string String.length]; intros H; [reflexivity |].
  apply andb_true_iff in H as [Hc Hpost].
  rewrite IH by exact Hpost. cbn [find_if_not_space]. rewrite Hc. lia.
Qed.

Lemma find_if_not_space_all (s : string) :
  all_space s = true -> find_if_not_space s = String.length s.
Proof.
  induction s as [|c s IH]; cbn [all_space find_if_not_space String.length];
    intros H; [reflexivity |].
  apply andb_true_iff in H as [Hc Hs]. rewrite Hc. now rewrite IH.
Qed.

Lemma ltrim_all (s : string) : all_space s = true -> ltrim s = "".
Proof.
  induction s as [|c s IH]; cbn [all_space ltrim]; intros H; [reflexivity |].
  apply andb_true_iff in H as [Hc Hs]. rewrite Hc. now apply IH.
Qed.

Lemma rtrim_all (s : string) : all_space s = true -> rtrim s = "".
Proof.
  induction s as [|c s IH]; cbn [all_space rtrim]; intros H; [reflexivity |].
  apply andb_true_iff in H as [Hc Hs]. rewrite IH by exact Hs. now rewrite Hc.
Qed.

(** A string is white space only, or it has a last character that is not. *)
Lemma last_non_space (s : string) :
  all_space s = true
  \/ exists (pre : string) (c : ascii) (post : string),
       s = pre ++ String c post /\ isspace c = false /\ all_space post = true.
Proof.
  induction s as [|a s IH]; [now left |].
  destruct IH as [Hall | (pre & c & post & -> & Hc & Hpost)].
  - destruct (isspace a) eqn:Ha.
    + left. cbn [all_space]. now rewrite Ha.
    + right. exists "", a, s. auto.
  - right. exists (String a pre), c, post. auto.
Qed.

Lemma rtrim_last (pre : string) (c : ascii) (post : string) :
  isspace c = false -> all_space post = true ->
  rtrim (pre ++ String c post) = pre ++ str1 c.
Proof.
  intros Hc Hpost.
  induction pre as [|a pre IH]; cbn [append rtrim].
  - rewrite rtrim_all by exact Hpost. now rewrite Hc.
  - rewrite IH. now destruct pre.
Qed.

Lemma find_if_not_space_bound (pre : string) (c : ascii) (post : string) :
  isspace c = false ->
  (find_if_not_space (pre ++ String c post) <= String.length pre)%nat.
Proof.
  intros Hc. induction pre as [|a pre IH];
    cbn [append find_if_not_space String.length].
  - rewrite Hc. lia.
  - destruct (isspace a); lia.
Qed.

Lemma drop_append (n : nat) (a b : string) :
  (n <= String.length a)%nat -> drop n (a ++ b) = drop n a ++ b.
Proof.
  revert a; induction n as [|n IH]; intros a H; [reflexivity |].
  destruct a as [|x a]; [simpl in H; lia |].
  cbn [append drop]. apply IH. simpl in H. lia.
Qed.

Lemma drop_length (n : nat) (a : string) :
  String.length (drop n a) = (String.length a - n)%nat.
Proof.
  revert a; induction n as [|n IH]; intros a; [simpl; lia |].
  destruct a as [|x a]; [reflexivity |]. cbn [drop String.length]. apply IH.
Qed.

Lemma take_append (a b : string) : take (String.length a) (a ++ b) = a.
Proof.
  induction a as [|x a IH]; cbn [String.length append take].
  - now destruct b.
  - now rewrite IH.
Qed.

Lemma drop_append_length (a b : string) : drop (String.length a) (a ++ b) = b.
Proof. induction a as [|x a IH]; cbn [String.length append drop]; auto. Qed.

Lemma trim_spec (s : string) : trim s = spec_trim s.
Proof.
  unfold trim, spec_trim.
  destruct (last_non_space s) as [Hall | (pre & c & post & -> & Hc & Hpost)].
  - rewrite ltrim_all by exact Hall. cbn [rtrim].
    rewrite (find_if_not_space_all s Hall).
    destruct (Nat.ltb_spec (String.length s)
                (String.length s - find_if_not_space (rev_string s ""))) as [L|L];
      [lia | reflexivity].
  - rewrite <- drop_find_if_not_space.
    pose proof (find_if_not_space_bound pre c post Hc) as B.
    set (start := find_if_not_space (pre ++ String c post)) in *.
    rewrite rev_string_app. cbn [rev_string].
    rewrite find_if_not_space_rev by exact Hpost.
    cbn [find_if_not_space]. rewrite Hc.
    rewrite length_append. cbn [String.length].
    replace (String.length pre + S (String.length post)
             - (String.length post + 0))%nat
      with (S (String.length pre)) by lia.
    destruct (Nat.ltb_spec start (S (String.length pre))) as [L|L]; [| lia].
    rewrite drop_append by exact B.
    rewrite rtrim_last by assumption.
    replace (S (String.length pre) - start)%nat
      with (String.length (drop start pre ++ str1 c)).
    + change (String c post) with (str1 c ++ post).
      rewrite <- append_assoc. apply take_append.
    + rewrite length_append, drop_length. cbn [String.length str1]. lia.
Qed.

(** ** Header lines *)

Lemma occurs_append (c : ascii) (a b : string) :
  occurs c (a ++ b) = occurs c a || occurs c b.
Proof.
  induction a as [|x a IH]; cbn [append occurs]; [reflexivity |].
  now rewrite IH, orb_assoc.
Qed.

Lemma find_char_app (c : ascii) (a b : string) :
  occurs c a = false -> find_char c (a ++ String c b) = Some (String.length a).
Proof.
  induction a as [|x a IH]; cbn [occurs append find_char String.length];
    intros H.
  - now rewrite Ascii.eqb_refl.
  - apply orb_false_iff in H as [Hx Ha]. rewrite Hx. now rewrite IH.
Qed.

Lemma find_char_none (c : ascii) (s : string) :
  occurs c s = false -> find_char c s = None.
Proof.
  induction s as [|x s IH]; cbn [occurs find_char]; intros H; [reflexivity |].
  apply orb_false_iff in H as [Hx Hs]. rewrite Hx. now rewrite IH.
Qed.

Lemma line_ok_no_LF (l : header_line) :
  line_ok l = true -> occurs LF (line_text l) = false.
Proof.
  destruct l as [name value | text]; cbn [line_ok line_text]; intros H.
  - apply andb_true_iff in H as [H Hv]. apply andb_true_iff in H as [_ Hn].
    apply negb_true_iff in Hv, Hn.
    rewrite occurs_append. cbn [occurs]. now rewrite Hn, Hv.
  - apply andb_true_iff in H as [_ H]. now apply negb_true_iff in H.
Qed.

(** The loop body does to a line what the specification says. *)
Lemma store_header_spec (l : header_line) (headers : StdMap.t string) :
  line_ok l = true -> store_header (line_text l) headers = spec_store headers l.
Proof.
  destruct l as [name value | text]; cbn [line_ok line_text spec_store];
    intros H; unfold store_header.
  - apply andb_true_iff in H as [H _]. apply andb_true_iff in H as [Hn _].
    apply negb_true_iff in Hn.
    rewrite find_char_app by exact Hn.
    rewrite take_append.
    replace (String.length name + 1)%nat
      with (String.length (name ++ str1 ":")) by (rewrite length_append; reflexivity).
    change (String ":" value) with (str1 ":" ++ value).
    rewrite <- append_assoc, drop_append_length.
    now rewrite !trim_spec.
  - apply andb_true_iff in H as [H _]. apply negb_true_iff in H.
    now rewrite find_char_none.
Qed.

Lemma store_header_empty (headers : StdMap.t string) :
  store_header "" headers = headers.
Proof. reflexivity. Qed.

(** ** The header loop, line by line *)

(** One turn of the loop, without fuel. *)
Lemma header_loop_step (stream : string) (headers : StdMap.t string) :
  header_loop stream headers
  = match getline stream LF with
    | None => (headers, stream)
    | Some (line, rest) =>
        if String.eqb line (str1 CR) then (headers, rest)
        else header_loop rest (store_header line headers)
    end.
Proof.
  unfold header_loop at 1. cbn [read_headers].
  destruct (getline stream LF) as [[line rest]|] eqn:E; [| reflexivity].
  destruct (String.eqb line (str1 CR)); [reflexivity |].
  apply getline_length in E. unfold header_loop.
  apply read_headers_fuel; lia.
Qed.

Lemma header_loop_line (line tail : string) (headers : StdMap.t string) :
  occurs LF line = false -> String.eqb line (str1 CR) = false ->
  ends_line tail ->
  header_loop (line ++ tail) headers
  = header_loop (drop 1 tail) (store_header line headers).
Proof.
  intros Hlf Hterm [-> | [rest ->]].
  - rewrite append_nil_r. cbn [drop]. destruct line as [|c line].
    + reflexivity.
    + rewrite header_loop_step.
      rewrite getline_all by (assumption || discriminate).
      now rewrite Hterm.
  - cbn [drop]. rewrite header_loop_step.
    rewrite getline_app by exact Hlf. now rewrite Hterm.
Qed.

Lemma header_loop_terminator (tail : string) (headers : StdMap.t string) :
  ends_line tail ->
  header_loop (String CR tail) headers = (headers, drop 1 tail).
Proof.
  intros [-> | [rest ->]]; reflexivity.
Qed.

Lemma header_loop_empty (headers : StdMap.t string) :
  header_loop "" headers = (headers, "").
Proof. reflexivity. Qed.

Lemma block_text_ends_line (ls : list header_line) (tail : string) :
  ends_line tail -> ends_line (block_text ls ++ tail).
Proof.
  intros H. destruct ls as [|l ls]; [exact H |].
  right. cbn [block_text append]. eauto.
Qed.

Lemma header_loop_block (ls : list header_line) (tail : string)
    (headers : StdMap.t string) :
  Forall plain_line ls -> ends_line tail ->
  header_loop (drop 1 (block_text ls ++ tail)) headers
  = header_loop (drop 1 tail) (fold_left spec_store ls headers).
Proof.
  intros Hls Htail. revert headers.
  induction Hls as [|l ls [Hok Hterm] _ IH]; intros headers.
  - reflexivity.
  - cbn [block_text append drop fold_left].
    rewrite append_assoc.
    rewrite header_loop_line.
    + rewrite IH. now rewrite store_header_spec.
    + now apply line_ok_no_LF.
    + exact Hterm.
    + now apply block_text_ends_line.
Qed.

(** ** The parser as a whole *)

Lemma parse_request_unfold (raw : string) :
  parse_request raw
  = (let* rq := parse_request_line (request_line raw) Request.declared in
     let '(headers, stream) :=
       header_loop (snd (read_until LF raw)) (Request.headers rq) in
     Return (Request.mk (Request.method rq) (Request.uri rq)
               (Request.version rq) headers stream)).
Proof.
  unfold parse_request, request_line, header_loop.
  assert (E : match getline raw LF with
              | Some (line, rest) => (line, rest)
              | None => ("", raw)
              end = read_until LF raw).
  { destruct raw as [|c raw]; [reflexivity |].
    unfold getline. now destruct (read_until LF (String c raw)). }
  rewrite E. destruct (read_until LF raw) as [line stream]. cbn [fst snd].
  destruct (parse_request_line line Request.declared) as [rq| |];
    cbn [bind]; [| reflexivity | reflexivity].
  now destruct (read_headers _ _ _).
Qed.

Lemma read_until_request_line (reqline tail : string) :
  occurs LF reqline = false -> ends_line tail ->
  read_until LF (reqline ++ tail) = (reqline, drop 1 tail).
Proof.
  intros H [-> | [rest ->]].
  - rewrite append_nil_r. now apply read_until_all.
  - now apply read_until_app.
Qed.

(** The request line leaves the header map and the body alone. *)
Lemma parse_request_line_headers (line : string) (r rq : Request.t) :
  parse_request_line line r = Return rq -> Request.headers rq = Request.headers r.
Proof.
  unfold parse_request_line.
  destruct (3 <=? List.length (split line SPACE))%nat;
    [| intros H; now injection H as <-].
  repeat match goal with
         | |- bind ?x _ = _ -> _ => destruct x; cbn [bind]; try discriminate
         end.
  intros H. now injection H as <-.
Qed.

(** The text of a request whose header block is [ls] and which goes on with
    [tail] after the block. *)
Lemma parse_request_block (reqline : string) (ls : list header_line)
    (tail : string) :
  occurs LF reqline = false -> Forall plain_line ls -> ends_line tail ->
  parse_request (reqline ++ block_text ls ++ tail)
  = (let* rq := parse_request_line reqline Request.declared in
     let '(headers, stream) :=
       header_loop (drop 1 tail) (fold_left spec_store ls StdMap.empty) in
     Return (Request.mk (Request.method rq) (Request.uri rq)
               (Request.version rq) headers stream)).
Proof.
  intros Hreq Hls Htail.
  rewrite parse_request_unfold. unfold request_line.
  rewrite read_until_request_line
    by (assumption || now apply block_text_ends_line).
  cbn [fst snd].
  destruct (parse_request_line reqline Request.declared) as [rq| |] eqn:E;
    cbn [bind]; [| reflexivity | reflexivity].
  rewrite (parse_request_line_headers _ _ _ E). cbn [Request.headers Request.declared].
  now rewrite header_loop_block.
Qed.

Lemma find_fold_spec_store (ls : list header_line) (headers : StdMap.t string)
    (k : string) :
  StdMap.ok headers ->
  StdMap.ok (fold_left spec_store ls headers)
  /\ StdMap.find k (fold_left spec_store ls headers)
     = match last_binding k (fields_of ls) with
       | Some v => Some v
       | None => StdMap.find k headers
       end.
Proof.
  revert headers.
  induction ls as [|[name value | text] ls IH]; intros headers H;
    cbn [fold_left spec_store fields_of last_binding].
  - now split.
  - destruct (IH (StdMap.assign (spec_trim name) (spec_trim value) headers))
      as [Hok Hfind]; [now apply StdMapFacts.assign_ok |].
    split; [exact Hok |]. rewrite Hfind.
    destruct (last_binding k (fields_of ls)); [reflexivity |].
    rewrite StdMapFacts.find_assign by exact H.
    now destruct (String.eqb k (spec_trim name)).
  - now apply IH.
Qed.

(** C6. The lines between the request line and the terminator line (a line
    that is a single CR): a line with a colon is split at its first colon,
    both parts are trimmed and stored, a later field with the same name
    replacing an earlier one; a line without a colon changes nothing; what
    follows the terminator line is the body. *)
Theorem C6_header_block (reqline : string) (ls : list header_line)
    (body : string) :
  occurs LF reqline = false -> Forall plain_line ls ->
  parse_request
    (reqline ++ block_text ls ++ String LF (String CR (String LF body)))
  = (let* rq := parse_request_line reqline Request.declared in
     Return (Request.mk (Request.method rq) (Request.uri rq)
               (Request.version rq) (spec_headers ls) body))
  /\ parse_request (reqline ++ block_text ls ++ String LF (str1 CR))
     = (let* rq := parse_request_line reqline Request.declared in
        Return (Request.mk (Request.method rq) (Request.uri rq)
                  (Request.version rq) (spec_headers ls) ""))
  /\ (forall k : string,
        StdMap.find k (spec_headers ls) = last_binding k (fields_of ls))
  /\ StdMap.ok (spec_headers ls).
Proof.
  intros Hreq Hls. split; [| split; [| split]].
  - rewrite parse_request_block; [| assumption | assumption | right; eauto].
    cbn [drop]. rewrite header_loop_terminator by (right; eauto). reflexivity.
  - rewrite parse_request_block; [| assumption | assumption | right; eauto].
    cbn [drop]. change (str1 CR) with (String CR "").
    rewrite header_loop_terminator by now left. reflexivity.
  - intros k.
    destruct (find_fold_spec_store ls StdMap.empty k StdMapFacts.ok_nil)
      as [_ E].
    unfold spec_headers. rewrite E.
    now destruct (last_binding k (fields_of ls)).
  - now destruct (find_fold_spec_store ls StdMap.empty "" StdMapFacts.ok_nil).
Qed.

Lemma C6_header_block_witness :
  parse_request
    ("GET /hello HTTP/1.1" ++ CRLF ++ "Host: localhost" ++ CRLF
       ++ "junk" ++ CRLF ++ "Host : example.org" ++ CRLF ++ CRLF ++ "hi")
  = Return (Request.mk (Value GET) "/hello" (Value (mkVersion 1 1))
              [("Host", "example.org")] "hi").
Proof.
  refine (proj1 (C6_header_block
                   ("GET /hello HTTP/1.1" ++ str1 CR)
                   [Field "Host" (" localhost" ++ str1 CR);
                    NoColon ("junk" ++ str1 CR);
                    Field "Host " (" example.org" ++ str1 CR)]
                   "hi" _ _)).
  - reflexivity.
  - repeat constructor.
Defined.

(** Every line without a line feed is a field or a line without a colon, and
    every buffer is a request line followed by a block of such lines. *)
Lemma find_char_some (c : ascii) (s : string) (n : nat) :
  find_char c s = Some n ->
  s = take n s ++ String c (drop (n + 1) s) /\ occurs c (take n s) = false.
Proof.
  revert n; induction s as [|x s IH]; intros n; cbn [find_char];
    [discriminate |].
  destruct (Ascii.eqb_spec x c) as [E|Hne].
  - intros H. injection H as <-. subst x. cbn. auto.
  - destruct (find_char c s) as [m|]; [| discriminate].
    intros H. injection H as <-.
    destruct (IH m eq_refl) as [Hs Hocc].
    cbn [take drop Nat.add append occurs]. split.
    + now rewrite <- Hs.
    + rewrite Hocc. apply orb_false_iff. split; [| reflexivity].
      now apply Ascii.eqb_neq.
Qed.

Lemma classify_spec (l : string) :
  occurs LF l = false ->
  line_text (classify l) = l /\ line_ok (classify l) = true.
Proof.
  intros Hlf. unfold classify.
  destruct (find_char ":" l) as [n|] eqn:E.
  - apply find_char_some in E as [Hs Hocc].
    cbn [line_text line_ok]. split; [now rewrite <- Hs |].
    rewrite Hs, occurs_append in Hlf. cbn [occurs] in Hlf.
    apply orb_false_iff in Hlf as [H1 H2].
    apply orb_false_iff in H2 as [_ H2].
    now rewrite Hocc, H1, H2.
  - cbn [line_text line_ok]. split; [reflexivity |].
    rewrite Hlf. 
    assert (H : occurs ":" l = false).
    { clear Hlf. induction l as [|x l IH]; [reflexivity |].
      cbn [find_char occurs] in *.
      destruct (Ascii.eqb x ":"); [discriminate |].
      destruct (find_char ":" l); [discriminate | now apply IH]. }
    now rewrite H.
Qed.

Lemma buffer_is_block (raw : string) :
  exists (reqline : string) (ls : list header_line),
    raw = reqline ++ block_text ls
    /\ occurs LF reqline = false
    /\ Forall (fun l => line_ok l = true) ls.
Proof.
  induction raw as [|c raw (reqline & ls & -> & Hreq & Hls)].
  - exists "", []. auto.
  - destruct (Ascii.eqb_spec c LF) as [->|Hne].
    + destruct (classify_spec reqline Hreq) as [Htext Hok].
      exists "", (classify reqline :: ls). cbn [append block_text].
      rewrite Htext. auto.
    + exists (String c reqline), ls. cbn [append occurs]. split; [reflexivity |].
      split; [| exact Hls].
      apply orb_false_iff. split; [now apply Ascii.eqb_neq | exact Hreq].
Qed.

(** C9 as stated fails: a buffer without terminator line whose request line
    has a version that is not numeric. *)
Lemma C9_no_terminator_may_throw :
  "GET / HTTP/x.y" ++ CRLF ++ "Host: a" ++ CRLF
  = ("GET / HTTP/x.y" ++ str1 CR)
      ++ block_text [Field "Host" (" a" ++ str1 CR); NoColon ""]
  /\ occurs LF ("GET / HTTP/x.y" ++ str1 CR) = false
  /\ Forall plain_line [Field "Host" (" a" ++ str1 CR); NoColon ""]
  /\ parse_request ("GET / HTTP/x.y" ++ CRLF ++ "Host: a" ++ CRLF)
     = Throw std_invalid_argument.
Proof.
  split; [reflexivity | split; [reflexivity | split; [| reflexivity]]].
  repeat constructor.
Qed.

(** C9 (amended). A buffer in which no line after the request line is the
    terminator: the request line decides whether the call returns, and when
    it is accepted the call returns a request in which every line with a
    colon up to the end of the buffer is stored as a header and whose body is
    empty. *)
Theorem C9_no_terminator (reqline : string) (ls : list header_line) :
  occurs LF reqline = false -> Forall plain_line ls ->
  parse_request (reqline ++ block_text ls)
  = (let* rq := parse_request_line reqline Request.declared in
     Return (Request.mk (Request.method rq) (Request.uri rq)
               (Request.version rq) (spec_headers ls) ""))
  /\ (forall rq : Request.t,
        parse_request_line reqline Request.declared = Return rq ->
        parse_request (reqline ++ block_text ls)
        = Return (Request.mk (Request.method rq) (Request.uri rq)
                    (Request.version rq) (spec_headers ls) ""))
  /\ (forall k : string,
        StdMap.find k (spec_headers ls) = last_binding k (fields_of ls)).
Proof.
  intros Hreq Hls.
  assert (E : parse_request (reqline ++ block_text ls)
              = (let* rq := parse_request_line reqline Request.declared in
                 Return (Request.mk (Request.method rq) (Request.uri rq)
                           (Request.version rq) (spec_headers ls) ""))).
  { rewrite <- (append_nil_r (block_text ls)).
    rewrite parse_request_block; [| assumption | assumption | now left].
    reflexivity. }
  split; [exact E | split].
  - intros rq Hrq. rewrite E, Hrq. reflexivity.
  - intros k.
    destruct (find_fold_spec_store ls StdMap.empty k StdMapFacts.ok_nil)
      as [_ F].
    unfold spec_headers. rewrite F.
    now destruct (last_binding k (fields_of ls)).
Qed.

Lemma C9_no_terminator_witness :
  parse_request ("GET / HTTP/1.1" ++ CRLF ++ "A: 1" ++ CRLF ++ "B:x:y")
  = Return (Request.mk (Value GET) "/" (Value (mkVersion 1 1))
              [("A", "1"); ("B", "x:y")] "").
Proof.
  refine (proj1 (C9_no_terminator
                   ("GET / HTTP/1.1" ++ str1 CR)
                   [Field "A" (" 1" ++ str1 CR); Field "B" "x:y"] _ _)).
  - reflexivity.
  - repeat constructor.
Defined.

(** ** The request line *)

Lemma stoi_defined (s : string) : stoi s <> Undefined.
Proof.
  unfold stoi.
  destruct (match skip_space s with
            | String "-" s' => (true, s')
            | String "+" s' => (false, s')
            | _ => (false, skip_space s)
            end) as [negative s'].
  destruct (read_digits s' 0 false) as [v|]; [| discriminate].
  destruct ((INT_MIN <=? (if negative then - v else v))
            && ((if negative then - v else v) <=? INT_MAX))%Z; discriminate.
Qed.

Lemma skip_space_ltrim (s : string) : skip_space s = ltrim s.
Proof.
  induction s as [|c s IH]; cbn [skip_space ltrim]; [reflexivity |].
  now rewrite IH.
Qed.

Lemma read_digits_seen (s : string) (acc : Z) :
  read_digits s acc true = Some (decimal_value (leading_digits s) acc).
Proof.
  revert acc; induction s as [|c s IH]; intros acc;
    cbn [read_digits leading_digits]; [reflexivity |].
  destruct (isdigit c); cbn [decimal_value]; [apply IH | reflexivity].
Qed.

Lemma read_digits_spec (s : string) :
  read_digits s 0 false
  = match leading_digits s with
    | EmptyString => None
    | digits => Some (decimal_value digits 0)
    end.
Proof.
  destruct s as [|c s]; cbn [read_digits leading_digits]; [reflexivity |].
  destruct (isdigit c); [| reflexivity].
  rewrite read_digits_seen. reflexivity.
Qed.

(** [std::stoi] converts the valid integers and throws on every other text. *)
Lemma stoi_spec (text : string) :
  stoi text
  = match int_text_value text with
    | None => Throw std_invalid_argument
    | Some v =>
        if ((INT_MIN <=? v) && (v <=? INT_MAX))%Z then Return v
        else Throw std_out_of_range
    end.
Proof.
  unfold stoi, int_text_value. rewrite skip_space_ltrim.
  assert (G : forall (negative : bool) (sign : Z) (s : string),
             sign = (if negative then -1 else 1) ->
             match read_digits s 0 false with
             | Some v =>
                 if ((INT_MIN <=? (if negative then - v else v))
                     && ((if negative then - v else v) <=? INT_MAX))%Z
                 then Return (if negative then - v else v)
                 else Throw std_out_of_range
             | None => Throw std_invalid_argument
             end
             = match match leading_digits s with
                     | EmptyString => None
                     | digits => Some (sign * decimal_value digits 0)
                     end with
               | Some v =>
                   if ((INT_MIN <=? v) && (v <=? INT_MAX))%Z then Return v
                   else Throw std_out_of_range
               | None => Throw std_invalid_argument
               end).
  { intros negative sign s ->. rewrite read_digits_spec.
    destruct (leading_digits s) as [|d ds]; [reflexivity |].
    set (v := decimal_value (String d ds) 0).
    replace ((if negative then -1 else 1) * v)
      with (if negative then - v else v) by (destruct negative; lia).
    reflexivity. }
  destruct (ltrim text) as [|c s]; [now apply (G false) |].
  destruct (Ascii.eqb_spec c "-") as [->|Hm]; [now apply (G true) |].
  destruct (Ascii.eqb_spec c "+") as [->|Hp]; [now apply (G false) |].
  pose proof (G false 1 (String c s) eq_refl) as G1.
  destruct c as [b0 b1 b2 b3 b4 b5 b6 b7].
  destruct b0, b1, b2, b3, b4, b5, b6, b7;
    try exact G1; exfalso; (now apply Hm) || (now apply Hp).
Qed.

Lemma stoi_throws_iff (text : string) :
  (exists e : exception, stoi text = Throw e) <-> not_an_int text.
Proof.
  unfold not_an_int, valid_int_text. rewrite stoi_spec.
  destruct (int_text_value text) as [v|].
  - destruct ((INT_MIN <=? v) && (v <=? INT_MAX))%Z.
    + split; [intros [e H]; discriminate | discriminate].
    + split; [reflexivity | eauto].
  - split; [reflexivity | eauto].
Qed.

(** The block guarded by [parts.size() >= 3], case by case. *)
Lemma parse_request_line_short (line : string) (r : Request.t) :
  (List.length (split line SPACE) < 3)%nat ->
  parse_request_line line r = Return r.
Proof.
  intros H. unfold parse_request_line.
  destruct (Nat.leb_spec 3 (List.length (split line SPACE))) as [L|L];
    [lia | reflexivity].
Qed.

Lemma parse_request_line_version (line : string) (r : Request.t)
    (p0 p1 p2 : string) (rest : list string) :
  split line SPACE = p0 :: p1 :: p2 :: rest ->
  parse_request_line line r
  = (let* text := substr p2 5 in
     let* v0 := index (split text ".") 0 in
     let* major := stoi v0 in
     let* v1 := index (split text ".") 1 in
     let* minor := stoi v1 in
     Return (Request.set_version (mkVersion major minor)
               (Request.set_uri p1
                  (Request.set_method (string_to_method p0) r)))).
Proof.
  intros E. unfold parse_request_line. rewrite E. reflexivity.
Qed.

Lemma substr_cases (s : string) (pos : nat) :
  ((String.length s < pos)%nat /\ substr s pos = Throw std_out_of_range)
  \/ ((pos <= String.length s)%nat /\ substr s pos = Return (drop pos s)).
Proof.
  unfold substr.
  destruct (Nat.leb_spec pos (String.length s)) as [L|L]; [right | left]; auto.
Qed.

Lemma request_line_throws (line : string) (r : Request.t) :
  (exists e : exception, parse_request_line line r = Throw e)
  <-> third_token_short line \/ version_text_fails line.
Proof.
  destruct (split line SPACE) as [|p0 [|p1 [|p2 rest]]] eqn:Hs.
  1-3: rewrite parse_request_line_short by (rewrite Hs; simpl; lia);
    (split; [intros [e H]; discriminate |]);
    (intros [(q0 & q1 & q2 & qs & H & _)
            |(q0 & q1 & q2 & qs & mt & more & H & _)]);
    congruence.
  rewrite (parse_request_line_version line r p0 p1 p2 rest Hs).
  destruct (substr_cases p2 5) as [[Hlen ->] | [Hlen ->]]; cbn [bind].
  - split; [| eauto].
    intros _. left. exists p0, p1, p2, rest. auto.
  - assert (Hshort : ~ third_token_short line).
    { intros (q0 & q1 & q2 & qs & H & Hlt).
      assert (q2 = p2) by congruence. subst q2. lia. }
    assert (Hfails : version_text_fails line
                     <-> exists major_text more,
                           split (drop 5 p2) "." = major_text :: more
                           /\ (not_an_int major_text
                               \/ exists minor_text more',
                                    more = minor_text :: more'
                                    /\ not_an_int minor_text)).
    { split.
      - intros (q0 & q1 & q2 & qs & mt & more & H & Hv & Hn).
        assert (q2 = p2) by congruence. subst q2. eauto.
      - intros (mt & more & Hv & Hn).
        exists p0, p1, p2, rest, mt, more. auto. }
    rewrite Hfails.
    destruct (split (drop 5 p2) ".") as [|v0 [|v1 vs]] eqn:Hv;
      cbn [index nth_error bind].
    + split; [intros [e H]; discriminate |].
      intros [H | (mt & more & H & _)]; [contradiction | discriminate].
    + pose proof (stoi_defined v0) as D0.
      destruct (stoi v0) as [major|e0|] eqn:E0; cbn [bind];
        [| | contradiction].
      * split; [intros [e H]; discriminate |].
        intros [H | (mt & more & H & [Hn | (nt & more' & Hm & _)])];
          [contradiction | | ]; injection H as <- <-; [| discriminate].
        apply stoi_throws_iff in Hn as [e He]. congruence.
      * split; [| eauto]. intros _. right. exists v0, []. split; [reflexivity |].
        left. apply stoi_throws_iff. exists e0. exact E0.
    + pose proof (stoi_defined v0) as D0. pose proof (stoi_defined v1) as D1.
      destruct (stoi v0) as [major|e0|] eqn:E0; cbn [bind];
        [| | contradiction].
      * destruct (stoi v1) as [minor|e1|] eqn:E1; cbn [bind];
          [| | contradiction].
        -- split; [intros [e H]; discriminate |].
           intros [H | (mt & more & H & [Hn | (nt & more' & Hm & Hn)])];
             [contradiction | | ]; injection H as <- <-.
           ++ apply stoi_throws_iff in Hn as [e He]. congruence.
           ++ injection Hm as <- <-.
              apply stoi_throws_iff in Hn as [e He]. congruence.
        -- split; [| eauto]. intros _. right. exists v0, (v1 :: vs).
           split; [reflexivity |]. right. exists v1, vs. split; [reflexivity |].
           apply stoi_throws_iff. exists e1. exact E1.
      * split; [| eauto]. intros _. right. exists v0, (v1 :: vs).
        split; [reflexivity |]. left. apply stoi_throws_iff.
        exists e0. exact E0.
Qed.

Lemma parse_request_throws (raw : string) (e : exception) :
  parse_request raw = Throw e
  <-> parse_request_line (request_line raw) Request.declared = Throw e.
Proof.
  rewrite parse_request_unfold.
  destruct (parse_request_line (request_line raw) Request.declared)
    as [rq| |]; cbn [bind]; [| reflexivity | reflexivity].
  destruct (header_loop _ _). split; discriminate.
Qed.

(** C1 as stated fails: the third token [1.1] and its CR are four characters,
    [substr(5)] throws [std::out_of_range], and no text was handed to the
    numeric conversion.  (And where the version has no second part, as in
    [HTTP/1], the parser neither throws nor returns: it reads
    [version_parts[1]] past the end of the vector.) *)
Lemma C1_short_token_throws :
  parse_request ("GET / 1.1" ++ CRLF ++ CRLF) = Throw std_out_of_range
  /\ ~ version_text_fails (request_line ("GET / 1.1" ++ CRLF ++ CRLF))
  /\ parse_request ("GET / HTTP/1" ++ CRLF ++ CRLF) = Undefined.
Proof.
  split; [reflexivity | split; [| reflexivity]].
  intros (p0 & p1 & p2 & rest & major_text & more & Hs & Hv & _).
  vm_compute in Hs. injection Hs as E0 E1 E2 E3. subst.
  vm_compute in Hv. discriminate.
Qed.

(** C1 (amended). On a buffer on which the parser does not index past the
    end of the version parts, [parse_request] throws exactly when the first
    line has three tokens or more and either the third token has fewer than
    five characters, or the text before the first dot of what follows these
    five characters is not a valid integer, or the text after that dot is
    not. *)
Theorem C1_parse_request_throws (raw : string) :
  parse_request raw <> Undefined ->
  ((exists e : exception, parse_request raw = Throw e)
   <-> third_token_short (request_line raw)
       \/ version_text_fails (request_line raw)).
Proof.
  intros _.
  rewrite <- (request_line_throws (request_line raw) Request.declared).
  split; intros [e H]; exists e; now apply parse_request_throws.
Qed.

Lemma C1_parse_request_throws_witness :
  (exists e : exception,
      parse_request ("GET / HTTP/x.y" ++ CRLF ++ CRLF) = Throw e)
  <-> third_token_short (request_line ("GET / HTTP/x.y" ++ CRLF ++ CRLF))
      \/ version_text_fails (request_line ("GET / HTTP/x.y" ++ CRLF ++ CRLF)).
Proof.
  apply (C1_parse_request_throws ("GET / HTTP/x.y" ++ CRLF ++ CRLF)).
  vm_compute. discriminate.
Defined.

(** What [std::stoi] takes and what it refuses. *)
Lemma stoi_examples :
  valid_int_text ("1" ++ str1 CR) = true
  /\ valid_int_text "x" = false
  /\ stoi "1" = Return 1
  /\ stoi ("1" ++ str1 CR) = Return 1
  /\ stoi " +12abc" = Return 12
  /\ stoi "x" = Throw std_invalid_argument
  /\ stoi "" = Throw std_invalid_argument
  /\ stoi "2147483647" = Return 2147483647
  /\ stoi "2147483648" = Throw std_out_of_range.
Proof. repeat split. Qed.

(** The request of the specification's example. *)
Lemma parse_request_example :
  parse_request
    ("GET /hello HTTP/1.1" ++ CRLF ++ "Host: localhost" ++ CRLF ++ CRLF ++ "hi")
  = Return (Request.mk (Value GET) "/hello" (Value (mkVersion 1 1))
              [("Host", "localhost")] "hi").
Proof. reflexivity. Qed.

(** A first line of fewer than three tokens: nothing is thrown, the request
    line assigns no field, the header loop and the body are as usual. *)
Lemma parse_request_few_tokens (raw : string) :
  (List.length (split (request_line raw) SPACE) < 3)%nat ->
  exists (headers : StdMap.t string) (body : string),
    header_loop (snd (read_until LF raw)) StdMap.empty = (headers, body)
    /\ parse_request raw
       = Return (Request.mk Indeterminate "" Indeterminate headers body).
Proof.
  intros H. rewrite parse_request_unfold.
  rewrite parse_request_line_short by exact H.
  unfold Request.declared.
  cbn [bind Request.headers Request.method Request.uri Request.version].
  destruct (header_loop (snd (read_until LF raw)) StdMap.empty)
    as [headers body].
  exists headers, body. split; reflexivity.
Qed.

(** C2. On [BADLINE] nothing is thrown and the target is empty, but the
    method and the version of the returned request were never given a value:
    [Request request;] does not initialize them. *)
Theorem C2_badline_fields_uninitialized :
  parse_request ("BADLINE" ++ CRLF ++ CRLF)
  = Return (Request.mk Indeterminate "" Indeterminate StdMap.empty "")
  /\ Request.method Request.declared <> Value GET
  /\ Request.version Request.declared <> Value (mkVersion 0 0).
Proof. split; [reflexivity | split; discriminate]. Qed.

(** * Further properties of the helpers *)

(** ** [split] *)

Lemma read_until_shape (delim : ascii) (stream : string) :
  occurs delim (fst (read_until delim stream)) = false
  /\ (stream = fst (read_until delim stream)
               ++ String delim (snd (read_until delim stream))
      \/ (stream = fst (read_until delim stream)
          /\ snd (read_until delim stream) = ""
          /\ occurs delim stream = false)).
Proof.
  induction stream as [|c s [IH1 IH2]]; cbn [read_until occurs].
  - split; [reflexivity | right; auto].
  - destruct (Ascii.eqb_spec c delim) as [->|Hne].
    + cbn. split; [reflexivity | left; reflexivity].
    + destruct (read_until delim s) as [line rest]. cbn [fst snd] in *.
      apply Ascii.eqb_neq in Hne. cbn [occurs append]. rewrite Hne. cbn [orb].
      split; [exact IH1 |].
      destruct IH2 as [E | (E & Er & Eo)].
      * left. now rewrite E at 1.
      * right. repeat split; [now rewrite E at 1 | exact Er | exact Eo].
Qed.

(** One turn of the loop of [split], without fuel. *)
Lemma split_step (delim : ascii) (c : ascii) (s : string) :
  split (String c s) delim
  = fst (read_until delim (String c s))
      :: split (snd (read_until delim (String c s))) delim.
Proof.
  unfold split at 1. cbn [split_loop getline].
  pose proof (read_until_length delim (String c s)) as L.
  destruct (read_until delim (String c s)) as [token rest] eqn:E.
  cbn [fst snd] in *.
  rewrite split_loop_tokens. cbn [app]. f_equal.
  unfold split. apply split_loop_fuel; [| lia].
  assert (G : getline (String c s) delim = Some (token, rest))
    by (unfold getline; now rewrite E).
  apply getline_length in G. exact G.
Qed.

(** Induction on a string along the tokens that [split] takes from it. *)
Lemma split_induction (delim : ascii) (P : string -> Prop) :
  P "" ->
  (forall c s, P (snd (read_until delim (String c s))) -> P (String c s)) ->
  forall s, P s.
Proof.
  intros H0 Hstep s.
  assert (G : forall n s, (String.length s < n)%nat -> P s).
  { induction n as [|n IH]; intros t Hn; [lia |].
    destruct t as [|c t]; [exact H0 |].
    apply Hstep. apply IH.
    assert (E : getline (String c t) delim
                = Some (read_until delim (String c t))) by reflexivity.
    destruct (read_until delim (String c t)) as [token rest].
    apply getline_length in E. cbn [snd]. lia. }
  apply (G (S (String.length s))). lia.
Qed.

Lemma split_tokens_no_delim (delim : ascii) (s : string) :
  Forall (fun token => occurs delim token = false) (split s delim).
Proof.
  induction s as [|c s IH] using (split_induction delim).
  - constructor.
  - rewrite split_step. constructor; [| exact IH].
    apply read_until_shape.
Qed.

Lemma ends_with_append_delim (delim : ascii) (a b : string) :
  ends_with delim (a ++ String delim b) = ends_with delim (String delim b).
Proof.
  induction a as [|x a IH]; [reflexivity |].
  cbn [append]. change (ends_with delim (String x (a ++ String delim b)))
    with (match a ++ String delim b with
          | EmptyString => Ascii.eqb x delim
          | _ => ends_with delim (a ++ String delim b)
          end).
  destruct (a ++ String delim b) eqn:E; [now destruct a | exact IH].
Qed.

Lemma ends_with_no_delim (delim : ascii) (s : string) :
  occurs delim s = false -> ends_with delim s = false.
Proof.
  induction s as [|x s IH]; [reflexivity |].
  cbn [occurs]. intros H. apply orb_false_iff in H as [Hx Hs].
  cbn [ends_with]. destruct s; [exact Hx | now apply IH].
Qed.

Lemma count_char_append (c : ascii) (a b : string) :
  count_char c (a ++ b) = (count_char c a + count_char c b)%nat.
Proof.
  induction a as [|x a IH]; cbn [append count_char]; [reflexivity |].
  rewrite IH. lia.
Qed.

Lemma count_char_none (c : ascii) (s : string) :
  occurs c s = false -> count_char c s = O.
Proof.
  induction s as [|x s IH]; cbn [occurs count_char]; [reflexivity |].
  intros H. apply orb_false_iff in H as [Hx Hs]. rewrite Hx. now rewrite IH.
Qed.

Lemma ends_with_cons_delim (delim : ascii) (rest : string) :
  ends_with delim (String delim rest)
  = match rest with
    | EmptyString => true
    | _ => ends_with delim rest
    end.
Proof. cbn [ends_with]. destruct rest; [apply Ascii.eqb_refl | reflexivity]. Qed.

(** X1. No token that [split] returns contains the delimiter, and the tokens
    joined by the delimiter give the string back, but for one delimiter at
    the very end of the string, which [split] drops. *)
Theorem X1_split_join (s : string) (delim : ascii) :
  Forall (fun token => occurs delim token = false) (split s delim)
  /\ s = String.concat (str1 delim) (split s delim)
           ++ (if ends_with delim s then str1 delim else "").
Proof.
  split; [apply split_tokens_no_delim |].
  induction s as [|c s IH] using (split_induction delim); [reflexivity |].
  rewrite split_step.
  destruct (read_until_shape delim (String c s)) as [Hno [E | (E & Er & Eo)]].
  - set (token := fst (read_until delim (String c s))) in *.
    set (rest := snd (read_until delim (String c s))) in *.
    rewrite E.
    rewrite ends_with_append_delim, ends_with_cons_delim.
    destruct rest as [|x rest].
    + rewrite split_empty. cbn [String.concat]. reflexivity.
    + rewrite split_step in *. cbn [String.concat].
      rewrite !append_assoc. cbn [str1 append]. f_equal. f_equal.
      exact IH.
  - rewrite Er, split_empty. cbn [String.concat].
    rewrite (ends_with_no_delim _ _ Eo). now rewrite append_nil_r.
Qed.

(** X2. The number of tokens is the number of delimiters in the string, and
    one more unless the string is empty or ends with the delimiter. *)
Theorem X2_split_length (s : string) (delim : ascii) :
  List.length (split s delim)
  = (count_char delim s
     + (if String.eqb s "" || ends_with delim s then 0 else 1))%nat.
Proof.
  induction s as [|c s IH] using (split_induction delim); [reflexivity |].
  rewrite split_step. cbn [List.length].
  destruct (read_until_shape delim (String c s)) as [Hno [E | (E & Er & Eo)]].
  - set (token := fst (read_until delim (String c s))) in *.
    set (rest := snd (read_until delim (String c s))) in *.
    rewrite IH. change (String.eqb (String c s) "") with false. rewrite E.
    rewrite count_char_append, (count_char_none _ _ Hno).
    rewrite ends_with_append_delim, ends_with_cons_delim.
    cbn [count_char]. rewrite Ascii.eqb_refl. cbn [orb].
    destruct rest as [|x rest]; cbn [String.eqb orb count_char]; lia.
  - rewrite Er, split_empty. cbn [List.length].
    rewrite (count_char_none _ _ Eo), (ends_with_no_delim _ _ Eo).
    reflexivity.
Qed.

(** ** [trim] *)

Lemma ends_with_space_append (a b : string) :
  b <> "" -> ends_with_space (a ++ b) = ends_with_space b.
Proof.
  intros Hb. induction a as [|x a IH]; [reflexivity |].
  cbn [append ends_with_space].
  destruct (a ++ b) eqn:E; [| exact IH].
  destruct a; [contradiction | discriminate].
Qed.

Lemma ends_with_space_all (s : string) :
  all_space s = true -> s <> "" -> ends_with_space s = true.
Proof.
  induction s as [|c s IH]; [contradiction |].
  cbn [all_space ends_with_space]. intros H _.
  apply andb_true_iff in H as [Hc Hs].
  destruct s; [exact Hc | apply IH; [exact Hs | discriminate]].
Qed.

Lemma ltrim_shape (s : string) :
  exists l : string,
    s = l ++ ltrim s /\ all_space l = true
    /\ starts_with_space (ltrim s) = false.
Proof.
  induction s as [|c s (l & E & Hl & Hs)]; [now exists "" |].
  cbn [ltrim]. destruct (isspace c) eqn:Hc.
  - exists (String c l). cbn [append all_space]. rewrite Hc, Hl.
    repeat split; [now rewrite <- E | exact Hs].
  - exists "". cbn [append all_space starts_with_space]. auto.
Qed.

Lemma rtrim_shape (s : string) :
  exists r : string,
    s = rtrim s ++ r /\ all_space r = true
    /\ ends_with_space (rtrim s) = false.
Proof.
  destruct (last_non_space s) as [Hall | (pre & c & post & -> & Hc & Hpost)].
  - exists s. rewrite rtrim_all by exact Hall. auto.
  - exists post. rewrite rtrim_last by assumption.
    rewrite append_assoc. repeat split; [exact Hpost |].
    rewrite ends_with_space_append by discriminate. exact Hc.
Qed.

Lemma ltrim_fixed (s : string) : starts_with_space s = false -> ltrim s = s.
Proof.
  destruct s as [|c s]; [reflexivity |].
  cbn [starts_with_space ltrim]. now intros ->.
Qed.

Lemma rtrim_fixed (s : string) : ends_with_space s = false -> rtrim s = s.
Proof.
  intros H.
  destruct (last_non_space s) as [Hall | (pre & c & post & -> & Hc & Hpost)].
  - destruct s as [|x s]; [reflexivity |].
    rewrite ends_with_space_all in H; [discriminate | exact Hall | discriminate].
  - destruct post as [|x post].
    + now apply rtrim_last.
    + rewrite ends_with_space_append in H by discriminate.
      change (String c (String x post)) with (str1 c ++ String x post) in H.
      rewrite ends_with_space_append in H by discriminate.
      rewrite ends_with_space_all in H;
        [discriminate | exact Hpost | discriminate].
Qed.

Lemma rtrim_keeps_start (s : string) :
  starts_with_space s = false -> starts_with_space (rtrim s) = false.
Proof.
  destruct s as [|c s]; [reflexivity |].
  cbn [starts_with_space rtrim]. intros Hc.
  destruct (rtrim s); cbn [starts_with_space]; [| exact Hc].
  now rewrite Hc.
Qed.

Lemma trim_shape (s : string) :
  exists l r : string,
    s = l ++ trim s ++ r
    /\ all_space l = true /\ all_space r = true
    /\ starts_with_space (trim s) = false
    /\ ends_with_space (trim s) = false.
Proof.
  rewrite trim_spec. unfold spec_trim.
  destruct (ltrim_shape s) as (l & El & Hl & Hs).
  destruct (rtrim_shape (ltrim s)) as (r & Er & Hr & He).
  exists l, r. repeat split; try assumption.
  - now rewrite <- Er.
  - now apply rtrim_keeps_start.
Qed.

Lemma trim_fixed (s : string) :
  starts_with_space s = false -> ends_with_space s = false -> trim s = s.
Proof.
  intros Hs He. rewrite trim_spec. unfold spec_trim.
  rewrite ltrim_fixed by exact Hs. now apply rtrim_fixed.
Qed.

(** X3. [trim] returns the string without the white space at its two ends:
    the string is white space, the result, white space, and the result
    neither begins nor ends with a white space character. *)
Theorem X3_trim_shape (s : string) :
  exists l r : string,
    s = l ++ trim s ++ r
    /\ all_space l = true /\ all_space r = true
    /\ starts_with_space (trim s) = false
    /\ ends_with_space (trim s) = false.
Proof. apply trim_shape. Qed.

(** X4. Trimming twice is trimming once, and a string of white space only
    trims to the empty string. *)
Theorem X4_trim_idempotent (s : string) :
  trim (trim s) = trim s /\ (all_space s = true -> trim s = "").
Proof.
  split.
  - destruct (trim_shape s) as (l & r & _ & _ & _ & Hs & He).
    now apply trim_fixed.
  - intros H. rewrite trim_spec. unfold spec_trim.
    now rewrite ltrim_all.
Qed.

Lemma X4_trim_idempotent_witness :
  trim (String TAB (String SPACE (str1 CR))) = "".
Proof.
  apply (proj2 (X4_trim_idempotent (String TAB (String SPACE (str1 CR))))).
  reflexivity.
Defined.

(** ** [escape_string] *)

Lemma escape_string_cons (c : ascii) (s : string) :
  escape_string (String c s) = escape_char c ++ escape_string s.
Proof. rewrite !escape_string_spec. cbn [spec_escape]. now rewrite escape_char_spec. Qed.

Lemma escape_string_append (a b : string) :
  escape_string (a ++ b) = escape_string a ++ escape_string b.
Proof.
  induction a as [|c a IH]; [reflexivity |].
  cbn [append]. rewrite !escape_string_cons, IH. now rewrite append_assoc.
Qed.

Lemma no_control_append (a b : string) :
  no_control (a ++ b) = no_control a && no_control b.
Proof.
  induction a as [|c a IH]; cbn [append no_control]; [reflexivity |].
  now rewrite IH, andb_assoc.
Qed.

Lemma escape_char_no_control (c : ascii) : no_control (escape_char c) = true.
Proof.
  destruct c as [b0 b1 b2 b3 b4 b5 b6 b7].
  destruct b0, b1, b2, b3, b4, b5, b6, b7; reflexivity.
Qed.

Lemma escape_char_length (c : ascii) : (1 <= String.length (escape_char c))%nat.
Proof.
  destruct c as [b0 b1 b2 b3 b4 b5 b6 b7].
  destruct b0, b1, b2, b3, b4, b5, b6, b7; cbv; lia.
Qed.

(** X5. The escaped text has no control character in it (no byte below
    0x20, so no raw line break or tab), and it is never shorter than the
    string. *)
Theorem X5_escape_string_no_control (s : string) :
  no_control (escape_string s) = true
  /\ (String.length s <= String.length (escape_string s))%nat.
Proof.
  induction s as [|c s [IH1 IH2]]; [split; [reflexivity | simpl; lia] |].
  rewrite escape_string_cons, no_control_append, length_append.
  rewrite escape_char_no_control, IH1.
  pose proof (escape_char_length c). cbn [String.length]. split; [reflexivity | lia].
Qed.

Lemma unescape_escape_char (c : ascii) (rest : string) :
  unescape_step (escape_char c ++ rest) = Some (c, rest).
Proof.
  destruct c as [b0 b1 b2 b3 b4 b5 b6 b7].
  destruct b0, b1, b2, b3, b4, b5, b6, b7; reflexivity.
Qed.

Lemma escape_string_injective (a b : string) :
  escape_string a = escape_string b -> a = b.
Proof.
  revert b; induction a as [|x a IH]; intros [|y b] E.
  - reflexivity.
  - rewrite escape_string_cons in E. apply (f_equal unescape_step) in E.
    rewrite unescape_escape_char in E. discriminate.
  - rewrite escape_string_cons in E. apply (f_equal unescape_step) in E.
    rewrite unescape_escape_char in E. discriminate.
  - rewrite !escape_string_cons in E. apply (f_equal unescape_step) in E.
    rewrite !unescape_escape_char in E. injection E as -> E.
    f_equal. now apply IH.
Qed.

Lemma string_value_text_injective (fmt : double -> string) (a b : string) :
  stringify fmt (JString a) = stringify fmt (JString b) -> a = b.
Proof.
  cbn [stringify]. intros E. injection E as E.
  apply escape_string_injective.
  revert E. generalize (escape_string a) (escape_string b).
  intros u; induction u as [|x u IH]; intros [|y v] E; cbn [append] in E.
  - reflexivity.
  - injection E as _ E. destruct v; discriminate.
  - injection E as _ E. destruct u; discriminate.
  - injection E as -> E. f_equal. now apply IH.
Qed.

(** X6. Escaping loses nothing: two different strings never have the same
    escaped text, the decimal digits after [\u] notwithstanding; so two
    different string values never have the same JSON text. *)
Theorem X6_escape_string_injective (fmt : double -> string) (a b : string) :
  a <> b ->
  escape_string a <> escape_string b
  /\ stringify fmt (JString a) <> stringify fmt (JString b).
Proof.
  intros Hne. split; intros E; apply Hne.
  - now apply escape_string_injective.
  - now apply (string_value_text_injective fmt).
Qed.

Lemma X6_escape_string_injective_witness :
  escape_string (str1 VT) <> escape_string (str1 "017"%char)
  /\ stringify (fun _ => "") (JString (str1 VT))
     <> stringify (fun _ => "") (JString (str1 "017"%char)).
Proof.
  apply (X6_escape_string_injective (fun _ => "") (str1 VT) (str1 "017"%char)).
  discriminate.
Defined.

(** X7. An array is written as its elements in their order, separated by
    commas and nothing else, between brackets; the empty array is [[]]. *)
Theorem X7_stringify_array (fmt : double -> string) (a : list JSON) :
  stringify fmt (array a)
  = "[" ++ String.concat "," (map (stringify fmt) a) ++ "]"
  /\ stringify fmt (array []) = "[]".
Proof. split; [apply stringify_array | reflexivity]. Qed.

(** ** Decimal numbers: [std::to_string] and [std::stoi] *)

Lemma string_of_uint_chars (d : Decimal.uint) :
  digits_or_minus (NilEmpty.string_of_uint d) = true.
Proof. induction d; cbn; auto. Qed.

Lemma leading_digits_string_of_uint (d : Decimal.uint) (tail : string) :
  starts_with_digit tail = false ->
  leading_digits (NilEmpty.string_of_uint d ++ tail)
  = NilEmpty.string_of_uint d.
Proof.
  intros H. induction d; cbn [NilEmpty.string_of_uint append leading_digits];
    try (change (isdigit "0") with true; change (isdigit "1") with true;
         change (isdigit "2") with true; change (isdigit "3") with true;
         change (isdigit "4") with true; change (isdigit "5") with true;
         change (isdigit "6") with true; change (isdigit "7") with true;
         change (isdigit "8") with true; change (isdigit "9") with true;
         now rewrite IHd).
  destruct tail as [|c tail]; [reflexivity |].
  cbn [starts_with_digit] in H. cbn [leading_digits]. now rewrite H.
Qed.

Lemma decimal_value_string_of_uint (d : Decimal.uint) (acc : Z) :
  decimal_value (NilEmpty.string_of_uint d) acc
  = Z.of_N (DecimalPos.Unsigned.of_lu (Decimal.rev d))
    + acc * 10 ^ Z.of_N (DecimalPos.Unsigned.usize d).
Proof.
  revert acc.
  induction d; intros acc;
    cbn [NilEmpty.string_of_uint decimal_value DecimalPos.Unsigned.usize];
    [cbn; lia | ..];
    rewrite IHd;
    match goal with
    | |- context [Decimal.rev (?k d)] =>
        change (Decimal.rev (k d)) with (Decimal.revapp d (k Decimal.Nil));
        rewrite (DecimalPos.Unsigned.of_lu_revapp d (k Decimal.Nil))
    end;
    rewrite N2Z.inj_add, N2Z.inj_mul, N2Z.inj_pow, N2Z.inj_succ;
    rewrite Z.pow_succ_r by apply N2Z.is_nonneg;
    cbn [DecimalPos.Unsigned.of_lu];
    change (digit_value "0") with 0; change (digit_value "1") with 1;
    change (digit_value "2") with 2; change (digit_value "3") with 3;
    change (digit_value "4") with 4; change (digit_value "5") with 5;
    change (digit_value "6") with 6; change (digit_value "7") with 7;
    change (digit_value "8") with 8; change (digit_value "9") with 9;
    cbn [N.mul N.add Z.of_N Pos.mul Pos.add]; ring.
Qed.

Lemma decimal_value_to_uint (p : positive) :
  decimal_value (NilEmpty.string_of_uint (Pos.to_uint p)) 0 = Z.pos p.
Proof.
  rewrite decimal_value_string_of_uint.
  rewrite <- DecimalPos.Unsigned.of_uint_alt, DecimalPos.Unsigned.of_to.
  cbn [Z.of_N]. lia.
Qed.

Lemma to_string_cases (n : Z) :
  (n = 0 /\ to_string n = "0")
  \/ (exists p, n = Z.pos p
                /\ to_string n = NilEmpty.string_of_uint (Pos.to_uint p))
  \/ (exists p, n = Z.neg p
                /\ to_string n
                   = String "-" (NilEmpty.string_of_uint (Pos.to_uint p))).
Proof.
  destruct n as [|p|p]; [left; auto | right; left | right; right];
    exists p; (split; [reflexivity |]);
    unfold to_string; cbn [Z.to_int NilZero.string_of_int];
    unfold NilZero.string_of_uint;
    pose proof (DecimalPos.Unsigned.to_uint_nonnil p) as H;
    destruct (Pos.to_uint p); try reflexivity; contradiction.
Qed.

Lemma to_string_chars (n : Z) : digits_or_minus (to_string n) = true.
Proof.
  destruct (to_string_cases n) as [[_ ->] | [(p & _ & ->) | (p & _ & ->)]].
  - reflexivity.
  - apply string_of_uint_chars.
  - cbn [digits_or_minus]. now rewrite string_of_uint_chars.
Qed.

Lemma to_string_nonempty (n : Z) : to_string n <> "".
Proof.
  destruct (to_string_cases n) as [[_ ->] | [(p & _ & ->) | (p & _ & ->)]];
    try discriminate.
  pose proof (DecimalPos.Unsigned.to_uint_nonnil p) as H.
  destruct (Pos.to_uint p); (contradiction || discriminate).
Qed.

Lemma digits_or_minus_occurs (c : ascii) (s : string) :
  digits_or_minus s = true -> isdigit c = false -> Ascii.eqb c "-" = false ->
  occurs c s = false.
Proof.
  intros Hs Hd Hm. induction s as [|x s IH]; [reflexivity |].
  cbn [digits_or_minus occurs] in *.
  apply andb_true_iff in Hs as [Hx Hs]. rewrite (IH Hs).
  destruct (Ascii.eqb_spec x c) as [->|]; [| reflexivity].
  rewrite Hd, Hm in Hx. discriminate.
Qed.

(** Reading a printed number: the sign, then the digits. *)
Lemma int_text_value_digits (d : Decimal.uint) (tail : string) :
  d <> Decimal.Nil -> starts_with_digit tail = false ->
  int_text_value (NilEmpty.string_of_uint d ++ tail)
  = Some (decimal_value (NilEmpty.string_of_uint d) 0)
  /\ int_text_value (String "-" (NilEmpty.string_of_uint d ++ tail))
     = Some (- decimal_value (NilEmpty.string_of_uint d) 0).
Proof.
  intros Hd Ht.
  pose proof (leading_digits_string_of_uint d tail Ht) as L.
  destruct d; [contradiction | ..];
    cbn [NilEmpty.string_of_uint append] in *;
    unfold int_text_value; cbn [ltrim];
    (split;
     [ match goal with
       | |- context [isspace ?c] => change (isspace c) with false
       end; cbv iota beta; rewrite L
     | change (isspace "-") with false; cbv iota beta; rewrite L ]);
    f_equal; lia.
Qed.

Lemma int_text_value_to_string (n : Z) (tail : string) :
  starts_with_digit tail = false ->
  int_text_value (to_string n ++ tail) = Some n.
Proof.
  intros Ht.
  destruct (to_string_cases n) as [[-> ->] | [(p & -> & ->) | (p & -> & ->)]].
  - destruct tail as [|c tail]; [reflexivity |].
    cbn [starts_with_digit] in Ht.
    unfold int_text_value. cbn [append ltrim].
    change (isspace "0") with false. cbv iota beta.
    cbn [leading_digits]. change (isdigit "0") with true. cbv iota.
    rewrite Ht. reflexivity.
  - destruct (int_text_value_digits (Pos.to_uint p) tail
                (DecimalPos.Unsigned.to_uint_nonnil p) Ht) as [E _].
    rewrite E. now rewrite decimal_value_to_uint.
  - destruct (int_text_value_digits (Pos.to_uint p) tail
                (DecimalPos.Unsigned.to_uint_nonnil p) Ht) as [_ E].
    cbn [append]. rewrite E. now rewrite decimal_value_to_uint.
Qed.

(** What [std::to_string] prints, [std::stoi] reads back, whatever follows
    the digits. *)
Lemma stoi_to_string (n : Z) (tail : string) :
  INT_MIN <= n <= INT_MAX -> starts_with_digit tail = false ->
  stoi (to_string n ++ tail) = Return n.
Proof.
  intros Hn Ht. rewrite stoi_spec, int_text_value_to_string by exact Ht.
  destruct (Z.leb_spec INT_MIN n); [| lia].
  destruct (Z.leb_spec n INT_MAX); [reflexivity | lia].
Qed.

(** ** Well-formed requests *)

Lemma to_string_no (c : ascii) (n : Z) :
  isdigit c = false -> Ascii.eqb c "-" = false -> occurs c (to_string n) = false.
Proof. intros. apply digits_or_minus_occurs; auto using to_string_chars. Qed.

Lemma version_text_split (major minor : Z) (tail : string) :
  occurs "." tail = false ->
  split (to_string major ++ String "." (to_string minor ++ tail)) "."
  = [to_string major; to_string minor ++ tail].
Proof.
  intros Ht. rewrite split_cons by now apply to_string_no.
  rewrite split_last; [reflexivity | |].
  - rewrite occurs_append, Ht. now rewrite to_string_no.
  - pose proof (to_string_nonempty minor). now destruct (to_string minor).
Qed.

Lemma request_line_well_formed (mtok target : string) (major minor : Z)
    (tail : string) (r : Request.t) :
  occurs SPACE mtok = false -> occurs SPACE target = false ->
  INT_MIN <= major <= INT_MAX -> INT_MIN <= minor <= INT_MAX ->
  occurs SPACE tail = false -> occurs "." tail = false ->
  starts_with_digit tail = false ->
  parse_request_line
    (mtok ++ String SPACE
       (target ++ String SPACE
          ("HTTP/" ++ to_string major ++ String "." (to_string minor ++ tail))))
    r
  = Return (Request.set_version (mkVersion major minor)
              (Request.set_uri target
                 (Request.set_method (string_to_method mtok) r))).
Proof.
  intros Hm Hu Hmaj Hmin Hs Hd Ht.
  set (version := to_string major ++ String "." (to_string minor ++ tail)).
  assert (Hv : occurs SPACE ("HTTP/" ++ version) = false).
  { unfold version. cbn [append occurs Ascii.eqb Bool.eqb SPACE orb andb].
    rewrite occurs_append. cbn [occurs]. rewrite occurs_append.
    rewrite !to_string_no by reflexivity. now rewrite Hs. }
  rewrite (parse_request_line_version _ r mtok target ("HTTP/" ++ version) []).
  - unfold substr. cbn [append String.length Nat.leb drop bind].
    unfold version. rewrite version_text_split by exact Hd.
    cbn [index nth_error bind].
    rewrite <- (append_nil_r (to_string major)) at 1.
    rewrite stoi_to_string by (assumption || reflexivity). cbn [bind].
    rewrite stoi_to_string by assumption. reflexivity.
  - rewrite split_cons by exact Hm. rewrite split_cons by exact Hu.
    rewrite split_last; [reflexivity | exact Hv | discriminate].
Qed.

Lemma parse_well_formed (mtok target : string) (major minor : Z)
    (ls : list header_line) (body : string) :
  occurs SPACE mtok = false -> occurs LF mtok = false ->
  occurs SPACE target = false -> occurs LF target = false ->
  INT_MIN <= major <= INT_MAX -> INT_MIN <= minor <= INT_MAX ->
  Forall plain_line ls ->
  parse_request
    (mtok ++ " " ++ target ++ " HTTP/" ++ to_string major ++ "."
       ++ to_string minor ++ str1 CR
       ++ block_text ls ++ String LF (String CR (String LF body)))
  = Return (Request.mk (Value (string_to_method mtok)) target
              (Value (mkVersion major minor)) (spec_headers ls) body).
Proof.
  intros Hm Hml Hu Hul Hmaj Hmin Hls.
  set (reqline :=
         mtok ++ String SPACE
           (target ++ String SPACE
              ("HTTP/" ++ to_string major
                 ++ String "." (to_string minor ++ str1 CR)))).
  assert (E : mtok ++ " " ++ target ++ " HTTP/" ++ to_string major ++ "."
                ++ to_string minor ++ str1 CR
                ++ block_text ls ++ String LF (String CR (String LF body))
              = reqline ++ block_text ls
                  ++ String LF (String CR (String LF body))).
  { unfold reqline.
    repeat (progress (rewrite ?append_assoc; cbn [append])). reflexivity. }
  rewrite E.
  rewrite parse_request_block; [| | exact Hls | right; eauto].
  - unfold reqline.
    rewrite request_line_well_formed by (assumption || reflexivity).
    cbn [bind drop]. rewrite header_loop_terminator by (right; eauto).
    reflexivity.
  - unfold reqline. rewrite occurs_append. cbn [occurs]. rewrite occurs_append.
    cbn [append occurs]. rewrite occurs_append. cbn [occurs].
    rewrite occurs_append. rewrite !to_string_no by reflexivity.
    rewrite Hml, Hul. reflexivity.
Qed.

(** X8. A request with a well-formed request line is parsed into its
    parts: the method of the first token ([UNKNOWN] for a token that is not a
    verb), the second token as target, the two numbers of the version, the
    headers of the header block and the body. *)
Theorem X8_parse_well_formed (mtok target : string) (major minor : Z)
    (ls : list header_line) (body : string) :
  occurs SPACE mtok = false -> occurs LF mtok = false ->
  occurs SPACE target = false -> occurs LF target = false ->
  INT_MIN <= major <= INT_MAX -> INT_MIN <= minor <= INT_MAX ->
  Forall plain_line ls ->
  parse_request
    (mtok ++ " " ++ target ++ " HTTP/" ++ to_string major ++ "."
       ++ to_string minor ++ str1 CR
       ++ block_text ls ++ String LF (String CR (String LF body)))
  = Return (Request.mk (Value (string_to_method mtok)) target
              (Value (mkVersion major minor)) (spec_headers ls) body).
Proof. apply parse_well_formed. Qed.

Lemma X8_parse_well_formed_witness :
  parse_request
    ("BREW /pot HTTP/2.0" ++ CRLF ++ "Accept: tea" ++ CRLF ++ CRLF ++ "now")
  = Return (Request.mk (Value UNKNOWN) "/pot" (Value (mkVersion 2 0))
              [("Accept", "tea")] "now").
Proof.
  refine (X8_parse_well_formed "BREW" "/pot" 2 0
            [Field "Accept" (" tea" ++ str1 CR)] "now" _ _ _ _ _ _ _);
    try reflexivity; try (unfold INT_MIN, INT_MAX; lia).
  repeat constructor.
Defined.

(** ** Headers on the wire and back *)

Lemma rtrim_snoc_space (s : string) (c : ascii) :
  isspace c = true -> rtrim (s ++ str1 c) = rtrim s.
Proof.
  intros Hc. induction s as [|x s IH]; cbn [append rtrim str1].
  - now rewrite Hc.
  - change (String c "") with (str1 c). now rewrite IH.
Qed.

Lemma trim_fixed_ends (s : string) :
  trim s = s -> starts_with_space s = false /\ ends_with_space s = false.
Proof.
  intros E. destruct (trim_shape s) as (l & r & _ & _ & _ & Hs & He).
  rewrite E in Hs, He. auto.
Qed.

Lemma spec_trim_wire_value (v : string) :
  trim v = v -> spec_trim (String SPACE (v ++ str1 CR)) = v.
Proof.
  intros E. destruct (trim_fixed_ends v E) as [Hs He].
  unfold spec_trim. cbn [ltrim]. change (isspace SPACE) with true. cbv iota.
  destruct v as [|c v]; [reflexivity |].
  cbn [starts_with_space] in Hs. cbn [append ltrim]. rewrite Hs.
  change (String c (v ++ str1 CR)) with (String c v ++ str1 CR).
  rewrite rtrim_snoc_space by reflexivity. now apply rtrim_fixed.
Qed.

Lemma wire_line_plain (h : string * string) :
  wire_safe h -> plain_line (wire_line h).
Proof.
  destruct h as [k v]. intros (Hc & Hk & Hv & _ & _). cbn [fst snd] in *.
  split.
  - cbn [wire_line line_ok fst snd]. rewrite Hc, Hk. cbn [negb andb occurs].
    rewrite occurs_append, Hv. reflexivity.
  - unfold is_terminator. apply String.eqb_neq. intros E.
    apply (f_equal (occurs ":")) in E.
    cbn [wire_line line_text fst snd] in E.
    rewrite occurs_append in E. cbn [occurs] in E.
    rewrite Ascii.eqb_refl, orb_true_r in E. discriminate.
Qed.

Lemma spec_store_wire_line (h : string * string) (headers : StdMap.t string) :
  wire_safe h ->
  spec_store headers (wire_line h) = StdMap.assign (fst h) (snd h) headers.
Proof.
  destruct h as [k v]. intros (_ & _ & _ & Ek & Ev). cbn [fst snd] in *.
  cbn [wire_line spec_store fst snd].
  rewrite spec_trim_wire_value by exact Ev.
  rewrite <- trim_spec. now rewrite Ek.
Qed.

Lemma assign_last {V : Type} (k : string) (v : V) (m : StdMap.t V) :
  Forall (fun k' => StdMap.key_lt k' k) (StdMap.keys m) ->
  StdMap.assign k v m = (m ++ [(k, v)])%list.
Proof.
  induction m as [|[k' v'] m IH]; cbn [StdMap.keys map fst StdMap.assign app];
    intros H; [reflexivity |].
  inversion H as [|? ? Hlt Hrest]; subst.
  rewrite String.compare_antisym. unfold StdMap.key_lt in Hlt. rewrite Hlt.
  cbn [CompOpp]. now rewrite IH.
Qed.

Lemma sorted_prefix_below {A : Type} (R : A -> A -> Prop) (a b : list A) (x : A) :
  StronglySorted R (a ++ x :: b) -> Forall (fun y => R y x) a.
Proof.
  induction a as [|y a IH]; cbn [app]; intros H; [constructor |].
  apply StronglySorted_inv in H as [Hs Hall]. constructor.
  - rewrite Forall_forall in Hall. apply Hall. apply in_or_app. right. now left.
  - now apply IH.
Qed.

Lemma fold_assign_sorted {V : Type} (m acc : StdMap.t V) :
  StdMap.ok (acc ++ m)%list ->
  fold_left (fun h kv => StdMap.assign (fst kv) (snd kv) h) m acc
  = (acc ++ m)%list.
Proof.
  revert acc. induction m as [|[k v] m IH]; intros acc H; cbn [fold_left fst snd].
  - now rewrite app_nil_r.
  - rewrite assign_last.
    + rewrite IH; rewrite <- app_assoc; [reflexivity | exact H].
    + unfold StdMap.ok, StdMap.keys in H. rewrite map_app in H.
      cbn [map fst] in H. now apply sorted_prefix_below in H.
Qed.

Lemma spec_headers_wire (m : StdMap.t string) :
  StdMap.ok m -> Forall wire_safe m -> spec_headers (map wire_line m) = m.
Proof.
  intros Hok Hsafe. unfold spec_headers.
  assert (E : forall acc,
             fold_left spec_store (map wire_line m) acc
             = fold_left (fun h kv => StdMap.assign (fst kv) (snd kv) h) m acc).
  { induction Hsafe as [|h m Hh _ IH]; intros acc; [reflexivity |].
    cbn [map fold_left]. rewrite spec_store_wire_line by exact Hh.
    apply IH. now apply StdMapFacts.ok_cons with (k := fst h) (v := snd h);
      destruct h. }
  rewrite E. now apply (fold_assign_sorted m []).
Qed.

(** The header block that [construct_response] writes, as a block of lines. *)
Lemma header_text_block (m : list (string * string)) (tail : string) :
  String LF (String.concat "" (map spec_header_line m) ++ String CR tail)
  = block_text (map wire_line m) ++ String LF (String CR tail).
Proof.
  induction m as [|[k v] m IH]; [reflexivity |].
  cbn [map]. rewrite concat_empty_cons.
  cbn [block_text append].
  rewrite (append_assoc (line_text (wire_line (k, v)))), <- IH.
  change (spec_header_line (k, v)) with (k ++ ": " ++ v ++ CRLF).
  cbn [wire_line line_text fst snd].
  repeat (progress (rewrite ?append_assoc; cbn [append CRLF str1])).
  reflexivity.
Qed.

Lemma method_to_string_plain (m : Method) :
  occurs SPACE (method_to_string m) = false
  /\ occurs LF (method_to_string m) = false
  /\ string_to_method (method_to_string m) = m.
Proof. destruct m; repeat split. Qed.

(** X9. A request that is written with a known or unknown method name, a
    target without space or line feed, the two version numbers, its headers
    in the form [construct_response] gives to headers ([name: value] and
    CR LF each, then an empty line) and its body is parsed back into the same
    request, when no header name has a colon, no header has a line feed, and
    names and values have no white space at their ends. *)
Theorem X9_request_round_trip (method : Method) (uri : string)
    (version : Version) (headers : StdMap.t string) (body : string) :
  occurs SPACE uri = false -> occurs LF uri = false ->
  INT_MIN <= major version <= INT_MAX ->
  INT_MIN <= minor version <= INT_MAX ->
  StdMap.ok headers -> Forall wire_safe headers ->
  parse_request (request_text method uri version headers body)
  = Return (Request.mk (Value method) uri (Value version) headers body).
Proof.
  intros Hu Hul Hmaj Hmin Hok Hsafe.
  destruct version as [vmajor vminor]. cbn [major minor] in *.
  destruct (method_to_string_plain method) as (Hm & Hml & Hrt).
  assert (E : request_text method uri (mkVersion vmajor vminor) headers body
              = method_to_string method ++ " " ++ uri ++ " HTTP/"
                  ++ to_string vmajor ++ "." ++ to_string vminor ++ str1 CR
                  ++ block_text (map wire_line headers)
                  ++ String LF (String CR (String LF body))).
  { rewrite <- header_text_block. unfold request_text. cbn [major minor].
    repeat (progress (rewrite ?append_assoc; cbn [append CRLF str1])).
    reflexivity. }
  rewrite E.
  rewrite parse_well_formed; try assumption.
  - rewrite Hrt, spec_headers_wire by assumption. reflexivity.
  - apply Forall_map. eapply Forall_impl; [| exact Hsafe].
    intros h Hh. now apply wire_line_plain.
Qed.

Lemma X9_request_round_trip_witness :
  parse_request
    (request_text POST "/items" (mkVersion 1 1)
       [("Content-Type", "application/json"); ("Host", "localhost")]
       "{}")
  = Return (Request.mk (Value POST) "/items" (Value (mkVersion 1 1))
              [("Content-Type", "application/json"); ("Host", "localhost")]
              "{}").
Proof.
  apply X9_request_round_trip; try reflexivity;
    try (cbn; unfold INT_MIN, INT_MAX; lia).
  - repeat constructor.
  - repeat constructor.
Defined.

(** ** What every returned request satisfies *)

Lemma occurs_trim (c : ascii) (s : string) :
  occurs c s = false -> occurs c (trim s) = false.
Proof.
  intros H. destruct (trim_shape s) as (l & r & E & _).
  rewrite E, !occurs_append in H.
  apply orb_false_iff in H as [_ H]. now apply orb_false_iff in H as [H _].
Qed.

Lemma trim_trim (s : string) : trim (trim s) = trim s.
Proof.
  destruct (trim_shape s) as (l & r & _ & _ & _ & Hs & He).
  now apply trim_fixed.
Qed.

Lemma assign_Forall {V : Type} (P : string * V -> Prop) (k : string) (v : V)
    (m : StdMap.t V) :
  P (k, v) -> Forall P m -> Forall P (StdMap.assign k v m).
Proof.
  intros Hkv. induction m as [|[k' v'] m IH]; cbn [StdMap.assign]; intros H.
  - now repeat constructor.
  - inversion H as [|? ? Hh Hm]; subst.
    destruct (String.compare k k').
    + now constructor.
    + now repeat constructor.
    + constructor; [exact Hh | now apply IH].
Qed.

Lemma store_header_safe (line : string) (headers : StdMap.t string) :
  occurs LF line = false ->
  StdMap.ok headers /\ Forall wire_safe headers ->
  StdMap.ok (store_header line headers)
  /\ Forall wire_safe (store_header line headers).
Proof.
  intros Hlf [Hok Hsafe]. unfold store_header.
  destruct (find_char ":" line) as [n|] eqn:E; [| now split].
  apply find_char_some in E as [Hline Hcolon].
  rewrite Hline, occurs_append in Hlf. cbn [occurs] in Hlf.
  apply orb_false_iff in Hlf as [Hk Hv].
  apply orb_false_iff in Hv as [_ Hv].
  split; [now apply StdMapFacts.assign_ok |].
  apply assign_Forall; [| exact Hsafe].
  repeat split; cbn [fst snd]; auto using occurs_trim, trim_trim.
Qed.

Lemma getline_no_delim (stream : string) (delim : ascii) (line rest : string) :
  getline stream delim = Some (line, rest) -> occurs delim line = false.
Proof.
  destruct stream as [|c s]; [discriminate |].
  pose proof (read_until_shape delim (String c s)) as [Hno _].
  unfold getline. destruct (read_until delim (String c s)) as [l r0].
  intros H. injection H as <- <-. exact Hno.
Qed.

Lemma getline_suffix (stream : string) (delim : ascii) (line rest : string) :
  getline stream delim = Some (line, rest) ->
  exists prefix : string, stream = prefix ++ rest.
Proof.
  destruct stream as [|c s]; [discriminate |].
  pose proof (read_until_shape delim (String c s)) as [_ Hshape].
  unfold getline. destruct (read_until delim (String c s)) as [l r0].
  intros H. injection H as <- <-. cbn [fst snd] in Hshape.
  destruct Hshape as [E | (E & Er & _)].
  - exists (l ++ str1 delim). rewrite append_assoc. exact E.
  - exists l. subst r0. now rewrite append_nil_r.
Qed.

Lemma read_headers_invariant (fuel : nat) (stream : string)
    (headers headers' : StdMap.t string) (rest : string) :
  read_headers fuel stream headers = (headers', rest) ->
  StdMap.ok headers /\ Forall wire_safe headers ->
  (StdMap.ok headers' /\ Forall wire_safe headers')
  /\ exists prefix : string, stream = prefix ++ rest.
Proof.
  revert stream headers.
  induction fuel as [|fuel IH]; intros stream headers; cbn [read_headers].
  - intros H Inv. injection H as <- <-. split; [exact Inv | now exists ""].
  - destruct (getline stream LF) as [[line rest']|] eqn:G.
    + destruct (getline_suffix _ _ _ _ G) as [p Ep].
      destruct (String.eqb line (str1 CR)).
      * intros H Inv. injection H as <- <-. split; [exact Inv | eauto].
      * intros H Inv.
        apply IH in H; [| apply store_header_safe;
                          [now apply getline_no_delim in G | exact Inv]].
        destruct H as [Inv' [q Eq]]. split; [exact Inv' |].
        exists (p ++ q). rewrite append_assoc, <- Eq. exact Ep.
    + intros H Inv. injection H as <- <-. split; [exact Inv | now exists ""].
Qed.

Lemma parse_request_returns (raw : string) (r : Request.t) :
  parse_request raw = Return r ->
  exists rq : Request.t,
    parse_request_line (request_line raw) Request.declared = Return rq
    /\ Request.method r = Request.method rq
    /\ Request.uri r = Request.uri rq
    /\ Request.version r = Request.version rq
    /\ header_loop (snd (read_until LF raw)) StdMap.empty
       = (Request.headers r, Request.body r).
Proof.
  rewrite parse_request_unfold.
  destruct (parse_request_line (request_line raw) Request.declared)
    as [rq| |] eqn:E; cbn [bind]; try discriminate.
  rewrite (parse_request_line_headers _ _ _ E).
  cbn [Request.headers Request.declared].
  destruct (header_loop (snd (read_until LF raw)) StdMap.empty)
    as [headers body].
  intros H. injection H as <-. exists rq. cbn. auto.
Qed.

(** X10. In every request that [parse_request] returns the header map is
    ordered by name without repetition, and every header is in normal form:
    no white space at the ends of the name or of the value, no colon in the
    name, no line feed in either. *)
Theorem X10_returned_headers_normal (raw : string) (r : Request.t) :
  parse_request raw = Return r ->
  StdMap.ok (Request.headers r) /\ Forall wire_safe (Request.headers r).
Proof.
  intros H. apply parse_request_returns in H as (rq & _ & _ & _ & _ & H).
  unfold header_loop in H.
  apply read_headers_invariant in H; [apply H |].
  split; [apply StdMapFacts.ok_nil | constructor].
Qed.

Lemma X10_returned_headers_normal_witness :
  StdMap.ok [("A", "2"); ("B", "x:y")]
  /\ Forall wire_safe [("A", "2"); ("B", "x:y")].
Proof.
  apply (X10_returned_headers_normal
           ("GET / HTTP/1.1" ++ CRLF ++ "B :x:y " ++ CRLF ++ " A: 1" ++ CRLF
              ++ "A:  2")
           (Request.mk (Value GET) "/" (Value (mkVersion 1 1))
              [("A", "2"); ("B", "x:y")] "")).
  reflexivity.
Defined.

(** X11. The body of every returned request is the end of the buffer: the
    parser copies it from there and changes no byte of it. *)
Theorem X11_body_is_suffix (raw : string) (r : Request.t) :
  parse_request raw = Return r ->
  exists prefix : string, raw = prefix ++ Request.body r.
Proof.
  intros H. apply parse_request_returns in H as (rq & _ & _ & _ & _ & H).
  unfold header_loop in H.
  apply read_headers_invariant in H;
    [| split; [apply StdMapFacts.ok_nil | constructor]].
  destruct H as [_ [q Eq]].
  destruct (read_until_shape LF raw) as [_ [E | (E & Er & _)]].
  - exists (fst (read_until LF raw) ++ str1 LF ++ q).
    rewrite !append_assoc. cbn [str1 append]. rewrite <- Eq. exact E.
  - rewrite Er in Eq. destruct q; [| discriminate]. cbn [append] in Eq.
    exists raw. rewrite <- Eq. now rewrite append_nil_r.
Qed.

Lemma X11_body_is_suffix_witness :
  exists prefix : string,
    "GET / HTTP/1.1" ++ CRLF ++ CRLF ++ "a" ++ CRLF ++ CRLF ++ "b"
    = prefix ++ ("a" ++ CRLF ++ CRLF ++ "b").
Proof.
  apply (X11_body_is_suffix
           ("GET / HTTP/1.1" ++ CRLF ++ CRLF ++ "a" ++ CRLF ++ CRLF ++ "b")
           (Request.mk (Value GET) "/" (Value (mkVersion 1 1)) []
              ("a" ++ CRLF ++ CRLF ++ "b"))).
  reflexivity.
Defined.

(** ** The request line: what is returned, and when the index is out of
    bounds *)

Lemma stoi_returns (s : string) (v : Z) :
  stoi s = Return v ->
  int_text_value s = Some v /\ INT_MIN <= v <= INT_MAX
  /\ valid_int_text s = true.
Proof.
  rewrite stoi_spec. unfold valid_int_text.
  destruct (int_text_value s) as [w|]; [| discriminate].
  destruct (Z.leb_spec INT_MIN w) as [L1|L1],
           (Z.leb_spec w INT_MAX) as [L2|L2]; cbn [andb];
    try discriminate.
  intros E. injection E as <-. repeat split; assumption.
Qed.

Lemma valid_int_text_returns (s : string) :
  valid_int_text s = true -> exists v : Z, stoi s = Return v.
Proof.
  rewrite stoi_spec. unfold valid_int_text.
  destruct (int_text_value s) as [w|]; [| discriminate].
  intros ->. eauto.
Qed.

Lemma request_line_undefined (line : string) (r : Request.t) :
  parse_request_line line r = Undefined
  <-> exists (p0 p1 p2 : string) (rest : list string),
        split line SPACE = p0 :: p1 :: p2 :: rest
        /\ (5 <= String.length p2)%nat
        /\ (split (drop 5 p2) "." = []
            \/ exists v0 : string,
                 split (drop 5 p2) "." = [v0] /\ valid_int_text v0 = true).
Proof.
  destruct (split line SPACE) as [|p0 [|p1 [|p2 rest]]] eqn:Hs.
  1-3: rewrite parse_request_line_short by (rewrite Hs; simpl; lia);
    (split; [discriminate |]);
    intros (q0 & q1 & q2 & qs & H & _); discriminate.
  rewrite (parse_request_line_version line r p0 p1 p2 rest Hs).
  assert (Hex : forall Q : string -> Prop,
             (exists (q0 q1 q2 : string) (qs : list string),
                 p0 :: p1 :: p2 :: rest = q0 :: q1 :: q2 :: qs /\ Q q2)
             <-> Q p2).
  { intros Q. split.
    - intros (q0 & q1 & q2 & qs & E & HQ). now injection E as <- <- <- <-.
    - intros HQ. now exists p0, p1, p2, rest. }
  rewrite (Hex (fun q2 =>
                  (5 <= String.length q2)%nat
                  /\ (split (drop 5 q2) "." = []
                      \/ exists v0 : string,
                           split (drop 5 q2) "." = [v0]
                           /\ valid_int_text v0 = true))).
  destruct (substr_cases p2 5) as [[Hlen ->] | [Hlen ->]]; cbn [bind].
  - split; [discriminate | intros [H _]; lia].
  - destruct (split (drop 5 p2) ".") as [|v0 [|v1 vs]] eqn:Hv;
      cbn [index nth_error bind].
    + split; [intros _; split; [exact Hlen | now left] | reflexivity].
    + destruct (stoi v0) as [major|e0|] eqn:E0; cbn [bind].
      * split; [| reflexivity]. intros _. split; [exact Hlen |].
        right. exists v0. split; [reflexivity |].
        now apply stoi_returns in E0.
      * split; [discriminate |].
        intros [_ [H | (w & H & Hvalid)]]; [discriminate |].
        injection H as <-. apply valid_int_text_returns in Hvalid as [v Hv'].
        congruence.
      * now destruct (stoi_defined v0).
    + destruct (stoi v0) as [major|e0|] eqn:E0; cbn [bind].
      * destruct (stoi v1) as [minor|e1|] eqn:E1; cbn [bind].
        -- split; [discriminate |].
           intros [_ [H | (w & H & _)]]; discriminate.
        -- split; [discriminate |].
           intros [_ [H | (w & H & _)]]; discriminate.
        -- now destruct (stoi_defined v1).
      * split; [discriminate |].
        intros [_ [H | (w & H & _)]]; discriminate.
      * now destruct (stoi_defined v0).
Qed.

Lemma parse_request_undefined (raw : string) :
  parse_request raw = Undefined
  <-> parse_request_line (request_line raw) Request.declared = Undefined.
Proof.
  rewrite parse_request_unfold.
  destruct (parse_request_line (request_line raw) Request.declared)
    as [rq| |]; cbn [bind]; [| split; discriminate | reflexivity].
  destruct (header_loop _ _). split; discriminate.
Qed.

(** X12. [parse_request] reads [version_parts] past its end exactly when the
    first line has three tokens or more, the third token has five characters
    at least, and what follows these five characters is empty, or has no
    second piece between dots while its only piece is a valid integer. *)
Theorem X12_index_out_of_bounds (raw : string) :
  parse_request raw = Undefined
  <-> exists (p0 p1 p2 : string) (rest : list string),
        split (request_line raw) SPACE = p0 :: p1 :: p2 :: rest
        /\ (5 <= String.length p2)%nat
        /\ (split (drop 5 p2) "." = []
            \/ exists v0 : string,
                 split (drop 5 p2) "." = [v0] /\ valid_int_text v0 = true).
Proof.
  rewrite parse_request_undefined. apply request_line_undefined.
Qed.

Lemma request_line_returns (line : string) (r rq : Request.t)
    (p0 p1 p2 : string) (rest : list string) :
  split line SPACE = p0 :: p1 :: p2 :: rest ->
  parse_request_line line r = Return rq ->
  Request.method rq = Value (string_to_method p0)
  /\ Request.uri rq = p1
  /\ exists (major_text minor_text : string) (more : list string)
            (vmajor vminor : Z),
       split (drop 5 p2) "." = major_text :: minor_text :: more
       /\ Request.version rq = Value (mkVersion vmajor vminor)
       /\ int_text_value major_text = Some vmajor
       /\ int_text_value minor_text = Some vminor
       /\ INT_MIN <= vmajor <= INT_MAX /\ INT_MIN <= vminor <= INT_MAX.
Proof.
  intros Hs. rewrite (parse_request_line_version line r p0 p1 p2 rest Hs).
  destruct (substr_cases p2 5) as [[Hlen ->] | [Hlen ->]]; cbn [bind];
    [discriminate |].
  destruct (split (drop 5 p2) ".") as [|v0 [|v1 vs]] eqn:Hv;
    cbn [index nth_error bind]; try discriminate.
  - destruct (stoi v0); discriminate.
  - destruct (stoi v0) as [vmajor| |] eqn:E0; cbn [bind]; try discriminate.
    destruct (stoi v1) as [vminor| |] eqn:E1; cbn [bind]; try discriminate.
    intros H. injection H as <-.
    apply stoi_returns in E0 as (I0 & R0 & _).
    apply stoi_returns in E1 as (I1 & R1 & _).
    unfold Request.set_version, Request.set_uri, Request.set_method.
    cbn [Request.method Request.uri Request.version].
    split; [reflexivity | split; [reflexivity |]].
    exists v0, v1, vs, vmajor, vminor.
    repeat split; reflexivity || assumption || lia.
Qed.

(** X13. When [parse_request] returns and the first line has three tokens
    or more, the method is the one of the first token, the target is the
    second token as it is, and the version has the integers read from the
    first two pieces between dots of the third token without its first five
    characters, whatever these five characters are; both integers fit an
    [int]. *)
Theorem X13_returned_request_line (raw : string) (r : Request.t)
    (p0 p1 p2 : string) (rest : list string) :
  parse_request raw = Return r ->
  split (request_line raw) SPACE = p0 :: p1 :: p2 :: rest ->
  Request.method r = Value (string_to_method p0)
  /\ Request.uri r = p1
  /\ exists (major_text minor_text : string) (more : list string)
            (vmajor vminor : Z),
       split (drop 5 p2) "." = major_text :: minor_text :: more
       /\ Request.version r = Value (mkVersion vmajor vminor)
       /\ int_text_value major_text = Some vmajor
       /\ int_text_value minor_text = Some vminor
       /\ INT_MIN <= vmajor <= INT_MAX /\ INT_MIN <= vminor <= INT_MAX.
Proof.
  intros H Hs.
  apply parse_request_returns in H as (rq & Hrq & -> & -> & -> & _).
  now apply (request_line_returns _ _ _ _ _ _ _ Hs Hrq).
Qed.

Lemma X13_returned_request_line_witness :
  Request.method
    (Request.mk (Value UNKNOWN) "/x" (Value (mkVersion 3 (-7))) [] "")
  = Value (string_to_method "get")
  /\ Request.uri
       (Request.mk (Value UNKNOWN) "/x" (Value (mkVersion 3 (-7))) [] "")
     = "/x"
  /\ exists (major_text minor_text : string) (more : list string)
            (vmajor vminor : Z),
       split (drop 5 "ABCDE3.-7z.9") "."
       = major_text :: minor_text :: more
       /\ Request.version
            (Request.mk (Value UNKNOWN) "/x" (Value (mkVersion 3 (-7))) [] "")
          = Value (mkVersion vmajor vminor)
       /\ int_text_value major_text = Some vmajor
       /\ int_text_value minor_text = Some vminor
       /\ INT_MIN <= vmajor <= INT_MAX /\ INT_MIN <= vminor <= INT_MAX.
Proof.
  apply (X13_returned_request_line
           ("get /x ABCDE3.-7z.9")
           (Request.mk (Value UNKNOWN) "/x" (Value (mkVersion 3 (-7))) [] "")
           "get" "/x" "ABCDE3.-7z.9" []).
  - reflexivity.
  - reflexivity.
Defined.

(** ** Which exception *)

Lemma stoi_invalid_argument (s : string) :
  stoi s = Throw std_invalid_argument <-> int_text_value s = None.
Proof.
  rewrite stoi_spec. destruct (int_text_value s) as [v|].
  - destruct ((INT_MIN <=? v) && (v <=? INT_MAX))%Z; split; discriminate.
  - split; reflexivity.
Qed.

Lemma request_line_invalid_argument (line : string) (r : Request.t) :
  parse_request_line line r = Throw std_invalid_argument
  <-> exists (p0 p1 p2 : string) (rest : list string)
             (major_text : string) (more : list string),
        split line SPACE = p0 :: p1 :: p2 :: rest
        /\ split (drop 5 p2) "." = major_text :: more
        /\ (int_text_value major_text = None
            \/ (valid_int_text major_text = true
                /\ exists (minor_text : string) (more' : list string),
                     more = minor_text :: more'
                     /\ int_text_value minor_text = None)).
Proof.
  destruct (split line SPACE) as [|p0 [|p1 [|p2 rest]]] eqn:Hs.
  1-3: rewrite parse_request_line_short by (rewrite Hs; simpl; lia);
    (split; [discriminate |]);
    intros (q0 & q1 & q2 & qs & t & more & H & _); discriminate.
  rewrite (parse_request_line_version line r p0 p1 p2 rest Hs).
  assert (Hex : forall Q : string -> Prop,
             (exists (q0 q1 q2 : string) (qs : list string)
                     (t : string) (more : list string),
                 p0 :: p1 :: p2 :: rest = q0 :: q1 :: q2 :: qs
                 /\ split (drop 5 q2) "." = t :: more
                 /\ (int_text_value t = None
                     \/ (valid_int_text t = true
                         /\ exists (u : string) (more' : list string),
                              more = u :: more' /\ int_text_value u = None)))
             <-> exists (t : string) (more : list string),
                   split (drop 5 p2) "." = t :: more
                   /\ (int_text_value t = None
                       \/ (valid_int_text t = true
                           /\ exists (u : string) (more' : list string),
                                more = u :: more'
                                /\ int_text_value u = None))).
  { intros _. split.
    - intros (q0 & q1 & q2 & qs & t & more & E & H).
      injection E as <- <- <- <-. eauto.
    - intros (t & more & H). exists p0, p1, p2, rest, t, more. auto. }
  rewrite (Hex (fun _ => True)). clear Hex.
  destruct (substr_cases p2 5) as [[Hlen ->] | [Hlen ->]]; cbn [bind].
  - split; [discriminate |]. intros (t & more & H & _).
    assert (E : drop 5 p2 = "").
    { pose proof (drop_length 5 p2) as L.
      destruct (drop 5 p2); [reflexivity | simpl in L; lia]. }
    rewrite E in H. discriminate.
  - destruct (split (drop 5 p2) ".") as [|v0 [|v1 vs]] eqn:Hv;
      cbn [index nth_error bind].
    + split; [discriminate | intros (t & more & H & _); discriminate].
    + destruct (stoi v0) as [vmajor|e0|] eqn:E0; cbn [bind].
      * apply stoi_returns in E0 as (I0 & _ & V0).
        split; [discriminate |].
        intros (t & more & H & [N | (_ & u & more' & Hm & _)]);
          injection H as <- <-; [congruence | discriminate].
      * split.
        -- intros H. injection H as ->. exists v0, []. split; [reflexivity |].
           left. now apply stoi_invalid_argument.
        -- intros (t & more & H & [N | (V & u & more' & Hm & _)]);
             injection H as <- <-; [| discriminate].
           apply stoi_invalid_argument in N. congruence.
      * now destruct (stoi_defined v0).
    + destruct (stoi v0) as [vmajor|e0|] eqn:E0; cbn [bind].
      * pose proof E0 as E0'. apply stoi_returns in E0' as (I0 & _ & V0).
        destruct (stoi v1) as [vminor|e1|] eqn:E1; cbn [bind].
        -- apply stoi_returns in E1 as (I1 & _ & _).
           split; [discriminate |].
           intros (t & more & H & [N | (_ & u & more' & Hm & N)]);
             injection H as <- <-; [congruence |].
           injection Hm as <- <-. congruence.
        -- split.
           ++ intros H. injection H as ->. exists v0, (v1 :: vs).
              split; [reflexivity |]. right. split; [exact V0 |].
              exists v1, vs. split; [reflexivity |].
              now apply stoi_invalid_argument.
           ++ intros (t & more & H & [N | (_ & u & more' & Hm & N)]);
                injection H as <- <-; [congruence |].
              injection Hm as <- <-. apply stoi_invalid_argument in N.
              congruence.
        -- now destruct (stoi_defined v1).
      * split.
        -- intros H. injection H as ->. exists v0, (v1 :: vs).
           split; [reflexivity |]. left. now apply stoi_invalid_argument.
        -- intros (t & more & H & [N | (V & u & more' & Hm & N)]);
             injection H as <- <-.
           ++ apply stoi_invalid_argument in N. congruence.
           ++ apply valid_int_text_returns in V as [v V]. congruence.
      * now destruct (stoi_defined v0).
Qed.

(** X14. [parse_request] throws [std::invalid_argument] exactly when the
    major text, or after a valid major text the minor text, has no digit
    where the number should begin; every other exception it throws is
    [std::out_of_range]: a third token under five characters, or a number
    that does not fit an [int]. *)
Theorem X14_which_exception (raw : string) :
  (parse_request raw = Throw std_invalid_argument
   <-> exists (p0 p1 p2 : string) (rest : list string)
              (major_text : string) (more : list string),
         split (request_line raw) SPACE = p0 :: p1 :: p2 :: rest
         /\ split (drop 5 p2) "." = major_text :: more
         /\ (int_text_value major_text = None
             \/ (valid_int_text major_text = true
                 /\ exists (minor_text : string) (more' : list string),
                      more = minor_text :: more'
                      /\ int_text_value minor_text = None)))
  /\ (third_token_short (request_line raw) ->
      parse_request raw = Throw std_out_of_range).
Proof.
  split.
  - rewrite parse_request_throws. apply request_line_invalid_argument.
  - intros (p0 & p1 & p2 & rest & Hs & Hlen).
    apply parse_request_throws.
    rewrite (parse_request_line_version _ _ p0 p1 p2 rest Hs).
    destruct (substr_cases p2 5) as [[_ ->] | [L _]]; [reflexivity | lia].
Qed.

Lemma X14_which_exception_witness :
  parse_request ("GET / HTT" ++ CRLF ++ CRLF) = Throw std_out_of_range.
Proof.
  apply (proj2 (X14_which_exception ("GET / HTT" ++ CRLF ++ CRLF))).
  exists "GET", "/", ("HTT" ++ str1 CR), []. split; [reflexivity | simpl; lia].
Defined.

(** ** The factories and the writer *)

Lemma custom_response_text (fmt : double -> string) (status : HttpStatus.t)
    (body : JSON) (headers : StdMap.t string) :
  construct_response (custom_response fmt status body headers)
  = "HTTP/1.1 " ++ to_string status ++ " "
      ++ Response.status_message (custom_response fmt status body headers)
      ++ CRLF
      ++ String.concat "" (map spec_header_line headers)
      ++ CRLF ++ stringify fmt body.
Proof. now rewrite construct_response_spec. Qed.

(** X15. The text of a response made by a factory: the status line is
    [HTTP/1.1], the code and its reason phrase ([Unknown Status] for a code
    that [custom_response] gets outside the list), the headers are the ones
    given, and the body is the JSON text of the value. *)
Theorem X15_factory_response_text (fmt : double -> string) (body : JSON)
    (headers : StdMap.t string) :
  construct_response (HTTP_200_OK fmt body headers)
  = "HTTP/1.1 200 OK" ++ response_rest fmt body headers
  /\ construct_response (HTTP_201_CREATED fmt body headers)
     = "HTTP/1.1 201 Created" ++ response_rest fmt body headers
  /\ construct_response (HTTP_400_BAD_REQUEST fmt body headers)
     = "HTTP/1.1 400 Bad Request" ++ response_rest fmt body headers
  /\ construct_response (HTTP_404_NOT_FOUND fmt body headers)
     = "HTTP/1.1 404 Not Found" ++ response_rest fmt body headers
  /\ construct_response (HTTP_500_INTERNAL_SERVER_ERROR fmt body headers)
     = "HTTP/1.1 500 Internal Server Error" ++ response_rest fmt body headers
  /\ (forall status : HttpStatus.t,
        ~ In status whitelist ->
        construct_response (custom_response fmt status body headers)
        = "HTTP/1.1 " ++ to_string status ++ " Unknown Status" ++ response_rest fmt body headers).
Proof.
  unfold response_rest, HTTP_200_OK, HTTP_201_CREATED, HTTP_400_BAD_REQUEST,
    HTTP_404_NOT_FOUND, HTTP_500_INTERNAL_SERVER_ERROR.
  rewrite !custom_response_text.
  repeat split.
  intros status H. rewrite custom_response_text.
  rewrite status_message_unknown by exact H.
  repeat (progress (rewrite ?append_assoc; cbn [append])). reflexivity.
Qed.

Lemma X15_factory_response_text_witness :
  construct_response
    (custom_response (fun _ => "") 418 (array [JInt 1; JNull]) default_headers)
  = "HTTP/1.1 418 Unknown Status" ++ CRLF
      ++ "Content-Type: application/json" ++ CRLF ++ CRLF ++ "[1,null]".
Proof.
  apply (proj2 (proj2 (proj2 (proj2 (proj2
           (X15_factory_response_text (fun _ => "") (array [JInt 1; JNull])
              default_headers))))) 418).
  cbv. intuition discriminate.
Defined.

(** ** Method names *)

(** X16. Converting a string to a method and back gives the string again
    exactly for the nine verbs and for [UNKNOWN]; every other string comes
    back as [UNKNOWN]. *)
Theorem X16_method_name_normal (s : string) :
  (method_to_string (string_to_method s) = s
   <-> In s ("UNKNOWN" :: known_verbs))
  /\ (~ In s known_verbs ->
      method_to_string (string_to_method s) = "UNKNOWN").
Proof.
  assert (U : ~ In s known_verbs ->
              method_to_string (string_to_method s) = "UNKNOWN").
  { intros H. now rewrite string_to_method_unknown. }
  split; [| exact U]. split.
  - intros E. destruct (in_dec string_dec s known_verbs) as [Hin | Hout].
    + now right.
    + left. rewrite U in E by exact Hout. exact E.
  - intros [<- | Hin]; [reflexivity | now apply string_to_method_known].
Qed.

Lemma X16_method_name_normal_witness :
  method_to_string (string_to_method "Get") = "UNKNOWN".
Proof.
  apply (proj2 (X16_method_name_normal "Get")).
  simpl. intuition discriminate.
Defined.

(** ** The JSON text has no control character *)

Lemma digits_or_minus_no_control (s : string) :
  digits_or_minus s = true -> no_control s = true.
Proof.
  induction s as [|c s IH]; [reflexivity |].
  cbn [digits_or_minus no_control]. intros H.
  apply andb_true_iff in H as [Hc Hs]. rewrite (IH Hs), andb_true_r.
  apply orb_true_iff in Hc as [Hd | Hm].
  - unfold isdigit in Hd. apply andb_true_iff in Hd as [Hd _].
    apply N.leb_le in Hd. apply N.leb_le. lia.
  - apply Ascii.eqb_eq in Hm. now subst c.
Qed.

Lemma no_control_concat (sep : string) (l : list string) :
  no_control sep = true -> Forall (fun s => no_control s = true) l ->
  no_control (String.concat sep l) = true.
Proof.
  intros Hsep H. induction H as [|x l Hx Hl IH]; [reflexivity |].
  cbn [String.concat]. destruct l as [|y l]; [exact Hx |].
  now rewrite !no_control_append, Hx, Hsep, IH.
Qed.

Lemma escape_string_no_control (s : string) :
  no_control (escape_string s) = true.
Proof.
  induction s as [|c s IH]; [reflexivity |].
  now rewrite escape_string_cons, no_control_append, escape_char_no_control.
Qed.

Lemma entry_text_no_control {A : Type} (render : A -> string)
    (kv : string * A) :
  no_control (render (snd kv)) = true ->
  no_control (entry_text render kv) = true.
Proof.
  intros H. unfold entry_text.
  rewrite !no_control_append, escape_string_no_control, H. reflexivity.
Qed.

(** X17. When the text of a double has no control character, the JSON text
    of every value has none: no raw line break or tab, whatever the strings
    and the keys in the value are. *)
Theorem X17_stringify_no_control (fmt : double -> string) (j : JSON) :
  (forall d : double, no_control (fmt d) = true) ->
  no_control (stringify fmt j) = true.
Proof.
  intros Hfmt. revert j. fix IH 1. intros j.
  destruct j as [|b|n|d|s|a|o].
  - reflexivity.
  - destruct b; reflexivity.
  - apply digits_or_minus_no_control, to_string_chars.
  - apply Hfmt.
  - cbn [stringify]. rewrite !no_control_append.
    rewrite escape_string_no_control. reflexivity.
  - rewrite stringify_array. cbn [append no_control].
    rewrite no_control_append, andb_true_r. cbn [N_of_ascii N.leb andb].
    apply no_control_concat; [reflexivity |].
    induction a as [|x a IHa]; constructor; [apply IH | exact IHa].
  - rewrite stringify_object. cbn [append no_control].
    rewrite no_control_append, andb_true_r.
    apply no_control_concat; [reflexivity |].
    induction o as [|[k v] o IHo]; constructor; [| exact IHo].
    apply entry_text_no_control. apply IH.
Qed.

Lemma X17_stringify_no_control_witness :
  no_control
    (stringify (fun _ => "0.5")
       (object [("k" ++ str1 LF, array [JString (str1 TAB); JDouble S754_nan])]))
  = true.
Proof.
  apply X17_stringify_no_control. intros d. reflexivity.
Defined.

(** ** Which buffers are accepted *)

Lemma split_nonempty_length (s : string) (delim : ascii) (t : string)
    (more : list string) :
  split (drop 5 s) delim = t :: more -> (5 <= String.length s)%nat.
Proof.
  intros H.
  destruct (Nat.le_gt_cases 5 (String.length s)) as [L|L]; [exact L |].
  assert (E : drop 5 s = "").
  { pose proof (drop_length 5 s) as D.
    destruct (drop 5 s); [reflexivity | simpl in D; lia]. }
  rewrite E in H. discriminate.
Qed.

Lemma request_line_accepts (line : string) (r : Request.t) :
  (exists rq : Request.t, parse_request_line line r = Return rq)
  <-> (List.length (split line SPACE) < 3)%nat
      \/ exists (p0 p1 p2 : string) (rest : list string)
                (major_text minor_text : string) (more : list string),
           split line SPACE = p0 :: p1 :: p2 :: rest
           /\ split (drop 5 p2) "." = major_text :: minor_text :: more
           /\ valid_int_text major_text = true
           /\ valid_int_text minor_text = true.
Proof.
  split.
  - intros [rq H].
    destruct (split line SPACE) as [|p0 [|p1 [|p2 rest]]] eqn:Hs;
      try (left; simpl; lia).
    right.
    destruct (request_line_returns _ _ _ _ _ _ _ Hs H)
      as (_ & _ & t0 & t1 & more & v0 & v1 & Hv & _ & I0 & I1 & R0 & R1).
    exists p0, p1, p2, rest, t0, t1, more.
    repeat split; try assumption; unfold valid_int_text.
    + rewrite I0. destruct (Z.leb_spec INT_MIN v0), (Z.leb_spec v0 INT_MAX);
        (reflexivity || lia).
    + rewrite I1. destruct (Z.leb_spec INT_MIN v1), (Z.leb_spec v1 INT_MAX);
        (reflexivity || lia).
  - intros [Hshort | (p0 & p1 & p2 & rest & t0 & t1 & more & Hs & Hv & V0 & V1)].
    + exists r. now apply parse_request_line_short.
    + rewrite (parse_request_line_version _ r p0 p1 p2 rest Hs).
      pose proof (split_nonempty_length _ _ _ _ Hv) as L.
      destruct (substr_cases p2 5) as [[L' _] | [_ ->]]; [lia |].
      cbn [bind]. rewrite Hv. cbn [index nth_error bind].
      apply valid_int_text_returns in V0 as [v0 ->].
      apply valid_int_text_returns in V1 as [v1 ->].
      cbn [bind]. eauto.
Qed.

(** X18. [parse_request] returns a request exactly when the first line has
    fewer than three tokens, or its third token without its first five
    characters has two pieces between dots at least, of which the first two
    are valid integers; neither the header lines nor the body can make it
    fail. *)
Theorem X18_accepted_buffers (raw : string) :
  (exists r : Request.t, parse_request raw = Return r)
  <-> (List.length (split (request_line raw) SPACE) < 3)%nat
      \/ exists (p0 p1 p2 : string) (rest : list string)
                (major_text minor_text : string) (more : list string),
           split (request_line raw) SPACE = p0 :: p1 :: p2 :: rest
           /\ split (drop 5 p2) "." = major_text :: minor_text :: more
           /\ valid_int_text major_text = true
           /\ valid_int_text minor_text = true.
Proof.
  rewrite <- (request_line_accepts (request_line raw) Request.declared).
  split.
  - intros [r H]. apply parse_request_returns in H as (rq & H & _). eauto.
  - intros [rq H]. rewrite parse_request_unfold, H. cbn [bind].
    destruct (header_loop _ _). eauto.
Qed.
